(** * The backpressure coordinator of rule-1 (good design), embedded in Rocq

    The Go program under study is the [workCoordinator] of the "fixed"
    service: a semaphore channel gating admission, three bounded stage
    channels drained by fixed worker pools, and a mutex-protected block of
    metrics.  The embedding is a labelled interleaving machine:

    - every goroutine is a [thread] standing at a program point of the
      source function it executes;
    - every atomic action of the source (committing one case of a [select],
      one channel operation, one critical section on [wc.mu]) is one step;
    - the scheduler, the random choice among the ready cases of a [select],
      [rand.Int] and the passing of time are resolved by the [event] that
      labels the step, so the machine is a total executable function
      [step : system -> event -> option system]. *)

From Stdlib Require Import ZArith String Bool Lia DecimalString.
From stdpp Require Import base list.

Local Open Scope Z_scope.

(** ** Machine integers and time *)

(** [int64] arithmetic of Go wraps around silently. *)
Definition wrap64 (z : Z) : Z := (z + 2 ^ 63) mod 2 ^ 64 - 2 ^ 63.

Definition in_int64 (z : Z) : Prop := - 2 ^ 63 <= z < 2 ^ 63.

(** [time.Duration] is a count of nanoseconds in an [int64]. *)
Definition Millisecond : Z := 1000000.
Definition Second : Z := 1000000000.

(** [time.Since(t)] is [time.Now().Sub(t)]; [Sub] saturates at the
    extreme durations instead of wrapping. *)
Definition time_Since (now t : Z) : Z :=
  Z.max (- 2 ^ 63) (Z.min (2 ^ 63 - 1) (now - t)).

(** Integer division of Go: truncated towards zero, a run-time panic on a
    zero divisor ([None]), wrapping on the one overflowing quotient. *)
Definition go_div (a b : Z) : option Z :=
  if b =? 0 then None else Some (wrap64 (Z.quot a b)).

(** ** Data model *)

(** A request context is known to the coordinator only through its [Done]
    channel; contexts are named by numbers and the machine records which
    of them have been cancelled (or have passed their deadline). *)
Definition context := nat.

(** [type job struct] *)
Record job : Type := mk_job {
  job_ID : Z;
  job_Data : string;
  job_CreatedAt : Z;
  job_ctx : context
}.

(** [type stage1Result struct]: note that it has no context field. *)
Record stage1Result : Type := mk_stage1Result {
  JobID : Z;
  Processed : string;
  Stage : Z;
  CreatedAt : Z
}.

(** A buffered Go channel: the queued elements, oldest first, and the
    capacity given to [make]. *)
Record chan (A : Type) : Type := mk_chan {
  buf : list A;
  cap : Z
}.
Arguments mk_chan {A} _ _.
Arguments buf {A} _.
Arguments cap {A} _.

(** [make(chan A, n)] panics on a negative size. *)
Definition make_chan {A : Type} (n : Z) : option (chan A) :=
  if n <? 0 then None else Some (mk_chan [] n).

(** [c <- x] can commit when the buffer has room; [None] means that the
    operation is not ready.  (A send may also hand its value directly to a
    receiver already parked on the channel.  A receiver parks only on an
    empty buffer, and [release_never_blocks] below shows that no goroutine
    of this program ever stands at a receive of [workSemaphore] while its
    buffer is empty; hand-offs on the stage channels are a send followed
    by a receive.) *)
Definition chan_send {A : Type} (c : chan A) (x : A) : option (chan A) :=
  if Z.of_nat (length (buf c)) <? cap c
  then Some (mk_chan (buf c ++ [x]) (cap c))
  else None.

(** [<-c] can commit when the buffer is not empty. *)
Definition chan_recv {A : Type} (c : chan A) : option (A * chan A) :=
  match buf c with
  | [] => None
  | x :: b => Some (x, mk_chan b (cap c))
  end.

Definition chan_len {A : Type} (c : chan A) : Z := Z.of_nat (length (buf c)).

(** [type workCoordinator struct].  [mu] is not a field of the model: each
    critical section is one atomic step.  [ctx]/[cancel] are represented
    by the flag [ctx_done], which is what [wc.ctx.Done()] lets one observe. *)
Record workCoordinator : Type := mk_workCoordinator {
  workSemaphore : chan unit;
  stage1Workers : Z;
  stage2Workers : Z;
  stage3Workers : Z;
  stage1Chan : chan job;
  stage2Chan : chan stage1Result;
  stage3Chan : chan stage1Result;
  activeJobs : Z;
  rejectedJobs : Z;
  completedJobs : Z;
  totalLatency : Z;
  ctx_done : bool
}.

Definition set_workSemaphore (c : chan unit) (wc : workCoordinator) :=
  mk_workCoordinator c (stage1Workers wc) (stage2Workers wc) (stage3Workers wc)
    (stage1Chan wc) (stage2Chan wc) (stage3Chan wc)
    (activeJobs wc) (rejectedJobs wc) (completedJobs wc) (totalLatency wc)
    (ctx_done wc).

Definition set_stage1Chan (c : chan job) (wc : workCoordinator) :=
  mk_workCoordinator (workSemaphore wc)
    (stage1Workers wc) (stage2Workers wc) (stage3Workers wc)
    c (stage2Chan wc) (stage3Chan wc)
    (activeJobs wc) (rejectedJobs wc) (completedJobs wc) (totalLatency wc)
    (ctx_done wc).

Definition set_stage2Chan (c : chan stage1Result) (wc : workCoordinator) :=
  mk_workCoordinator (workSemaphore wc)
    (stage1Workers wc) (stage2Workers wc) (stage3Workers wc)
    (stage1Chan wc) c (stage3Chan wc)
    (activeJobs wc) (rejectedJobs wc) (completedJobs wc) (totalLatency wc)
    (ctx_done wc).

Definition set_stage3Chan (c : chan stage1Result) (wc : workCoordinator) :=
  mk_workCoordinator (workSemaphore wc)
    (stage1Workers wc) (stage2Workers wc) (stage3Workers wc)
    (stage1Chan wc) (stage2Chan wc) c
    (activeJobs wc) (rejectedJobs wc) (completedJobs wc) (totalLatency wc)
    (ctx_done wc).

Definition set_metrics (a r c l : Z) (wc : workCoordinator) :=
  mk_workCoordinator (workSemaphore wc)
    (stage1Workers wc) (stage2Workers wc) (stage3Workers wc)
    (stage1Chan wc) (stage2Chan wc) (stage3Chan wc)
    a r c l (ctx_done wc).

(** ** The coordinator's functions *)

(** [newWorkCoordinator(maxConcurrent)]: the only argument sizes the
    semaphore; worker counts and queue capacities are literals. *)
Definition newWorkCoordinator (maxConcurrent : Z) : option workCoordinator :=
  match make_chan maxConcurrent with
  | None => None
  | Some sem =>
      Some (mk_workCoordinator sem 5 3 2
              (mk_chan [] 5) (mk_chan [] 3) (mk_chan [] 2)
              0 0 0 0 false)
  end.

(** The two bounded waits of [SubmitJob] are literals of its body. *)
Definition admissionTimeout : Z := 100 * Millisecond.
Definition stage1HandoffTimeout : Z := 1 * Second.

(** [wc.Stop()] calls [wc.cancel()]. *)
Definition Stop (wc : workCoordinator) : workCoordinator :=
  mk_workCoordinator (workSemaphore wc)
    (stage1Workers wc) (stage2Workers wc) (stage3Workers wc)
    (stage1Chan wc) (stage2Chan wc) (stage3Chan wc)
    (activeJobs wc) (rejectedJobs wc) (completedJobs wc) (totalLatency wc)
    true.

Definition trackJobStart (wc : workCoordinator) : workCoordinator :=
  set_metrics (wrap64 (activeJobs wc + 1)) (rejectedJobs wc)
    (completedJobs wc) (totalLatency wc) wc.

Definition trackJobEnd (latency : Z) (completed : bool)
    (wc : workCoordinator) : workCoordinator :=
  if completed
  then set_metrics (wrap64 (activeJobs wc - 1)) (rejectedJobs wc)
         (wrap64 (completedJobs wc + 1)) (wrap64 (totalLatency wc + latency)) wc
  else set_metrics (wrap64 (activeJobs wc - 1)) (rejectedJobs wc)
         (completedJobs wc) (totalLatency wc) wc.

Definition recordRejection (wc : workCoordinator) : workCoordinator :=
  set_metrics (activeJobs wc) (wrap64 (rejectedJobs wc + 1))
    (completedJobs wc) (totalLatency wc) wc.

(** [GetMetrics]: [(active, completed, rejected, avgLatency)]; [None]
    would be the division panic. *)
Definition GetMetrics (wc : workCoordinator) : option (Z * Z * Z * Z) :=
  if completedJobs wc >? 0 then
    match go_div (totalLatency wc) (completedJobs wc) with
    | Some avg => Some (activeJobs wc, completedJobs wc, rejectedJobs wc, avg)
    | None => None
    end
  else Some (activeJobs wc, completedJobs wc, rejectedJobs wc, 0).

(** The value built by [processStage1] before its hand-off. *)
Definition processStage1_result (j : job) : stage1Result :=
  mk_stage1Result (job_ID j) (String.append "stage1-" (job_Data j)) 1
    (job_CreatedAt j).

(** The two assignments of [processStage2] before its hand-off. *)
Definition processStage2_result (r : stage1Result) : stage1Result :=
  mk_stage1Result (JobID r) (String.append "stage2-" (Processed r)) 2
    (CreatedAt r).

(** ** Goroutines *)

(** Program points of one call of [SubmitJob]. *)
Inductive submit_pc : Type :=
| SGate (c : context) (data : string) (deadline : Z)
    (* blocked in the first select; the 100ms timer fires at [deadline] *)
| SRejected (err : string)
    (* a rejecting case was taken; before wc.recordRejection() *)
| SAcquired (c : context) (data : string)
    (* the token is acquired; before job := job{..} *)
| SCreated (j : job)
    (* the job is built; before wc.trackJobStart() *)
| SHandoff (j : job) (deadline : Z)
    (* blocked in the second select; the 1s timer fires at [deadline] *)
| SRelease (j : job) (err : string)
    (* a failing case was taken; before <-wc.workSemaphore *)
| STrackEnd (j : job) (err : string)
    (* the token is given back; before wc.trackJobEnd(.., false) *)
| SReturned (r : option string).
    (* the call has returned: nil or errors.New(err) *)

(** Program points of a stage-1 worker, inside [stage1Worker]'s loop or
    inside the [processStage1] it calls. *)
Inductive stage1_pc : Type :=
| W1Loop
| W1Handoff (j : job)    (* processStage1: blocked in its select *)
| W1Release (j : job)    (* processStage1: before <-wc.workSemaphore *)
| W1TrackEnd (j : job)   (* processStage1: before wc.trackJobEnd(.., false) *)
| W1Exited.

Inductive stage2_pc : Type :=
| W2Loop
| W2Handoff (r : stage1Result)   (* processStage2: blocked in its select *)
| W2Exited.

Inductive stage3_pc : Type :=
| W3Loop
| W3Release (r : stage1Result)   (* processStage3: before <-wc.workSemaphore *)
| W3Measure (r : stage1Result)   (* processStage3: before latency := time.Since(..) *)
| W3TrackEnd (r : stage1Result) (latency : Z)
                                 (* processStage3: before wc.trackJobEnd(latency, true) *)
| W3Exited.

Inductive thread : Type :=
| Submitter (pc : submit_pc)
| Stage1 (pc : stage1_pc)
| Stage2 (pc : stage2_pc)
| Stage3 (pc : stage3_pc).

(** What a goroutine does in one step: which ready case of the select it
    stands at is taken, or which straight-line action it performs. *)
Inductive choice : Type :=
| Acquire               (* case wc.workSemaphore <- struct{}{} *)
| CtxDone               (* case <-ctx.Done() / case <-job.ctx.Done() *)
| TimedOut              (* case <-time.After(..) *)
| Reject                (* wc.recordRejection(); return err *)
| Create (id : Z)       (* job := job{ID: rand.Int(), .., CreatedAt: time.Now(), ..} *)
| TrackStart            (* wc.trackJobStart() *)
| Send                  (* case wc.stageNChan <- x *)
| Recv                  (* case x := <-wc.stageNChan *)
| Release               (* <-wc.workSemaphore *)
| Measure               (* latency := time.Since(result.CreatedAt) *)
| TrackEnd              (* wc.trackJobEnd(.., ..) *)
| Abort                 (* case <-wc.ctx.Done(): return, inside processStageN *)
| Exit.                 (* case <-wc.ctx.Done(): return, in a worker loop *)

Definition ctx_Done (cancelled : list context) (c : context) : bool :=
  existsb (Nat.eqb c) cancelled.

Definition err_cancelled : string := "request cancelled".
Definition err_capacity : string := "system at capacity - try again later".
Definition err_backed_up : string := "stage1 backed up - system degraded".

(** [SubmitJob], one atomic action at a time. *)
Definition SubmitJob (ch : choice) (pc : submit_pc) (wc : workCoordinator)
    (now : Z) (cancelled : list context) : option (submit_pc * workCoordinator) :=
  match pc, ch with
  | SGate c data _, Acquire =>
      match chan_send (workSemaphore wc) tt with
      | Some sem => Some (SAcquired c data, set_workSemaphore sem wc)
      | None => None
      end
  | SGate c _ _, CtxDone =>
      if ctx_Done cancelled c then Some (SRejected err_cancelled, wc) else None
  | SGate _ _ deadline, TimedOut =>
      if deadline <=? now then Some (SRejected err_capacity, wc) else None
  | SRejected err, Reject =>
      Some (SReturned (Some err), recordRejection wc)
  | SAcquired c data, Create id =>
      Some (SCreated (mk_job id data now c), wc)
  | SCreated j, TrackStart =>
      Some (SHandoff j (now + stage1HandoffTimeout), trackJobStart wc)
  | SHandoff j _, Send =>
      match chan_send (stage1Chan wc) j with
      | Some q => Some (SReturned None, set_stage1Chan q wc)
      | None => None
      end
  | SHandoff j deadline, TimedOut =>
      if deadline <=? now then Some (SRelease j err_backed_up, wc) else None
  | SHandoff j _, CtxDone =>
      if ctx_Done cancelled (job_ctx j)
      then Some (SRelease j err_cancelled, wc) else None
  | SRelease j err, Release =>
      match chan_recv (workSemaphore wc) with
      | Some (_, sem) => Some (STrackEnd j err, set_workSemaphore sem wc)
      | None => None
      end
  | STrackEnd j err, TrackEnd =>
      Some (SReturned (Some err),
            trackJobEnd (time_Since now (job_CreatedAt j)) false wc)
  | _, _ => None
  end.

(** [stage1Worker] and the [processStage1] it runs on each job. *)
Definition stage1Worker (ch : choice) (pc : stage1_pc) (wc : workCoordinator)
    (now : Z) (cancelled : list context) : option (stage1_pc * workCoordinator) :=
  match pc, ch with
  | W1Loop, Exit =>
      if ctx_done wc then Some (W1Exited, wc) else None
  | W1Loop, Recv =>
      match chan_recv (stage1Chan wc) with
      | Some (j, q) => Some (W1Handoff j, set_stage1Chan q wc)
      | None => None
      end
  | W1Handoff j, Send =>
      match chan_send (stage2Chan wc) (processStage1_result j) with
      | Some q => Some (W1Loop, set_stage2Chan q wc)
      | None => None
      end
  | W1Handoff j, CtxDone =>
      if ctx_Done cancelled (job_ctx j) then Some (W1Release j, wc) else None
  | W1Handoff j, Abort =>
      if ctx_done wc then Some (W1Loop, wc) else None
  | W1Release j, Release =>
      match chan_recv (workSemaphore wc) with
      | Some (_, sem) => Some (W1TrackEnd j, set_workSemaphore sem wc)
      | None => None
      end
  | W1TrackEnd j, TrackEnd =>
      Some (W1Loop, trackJobEnd (time_Since now (job_CreatedAt j)) false wc)
  | _, _ => None
  end.

(** [stage2Worker] and [processStage2]: the hand-off select has no case
    for the item's own context. *)
Definition stage2Worker (ch : choice) (pc : stage2_pc) (wc : workCoordinator)
    : option (stage2_pc * workCoordinator) :=
  match pc, ch with
  | W2Loop, Exit =>
      if ctx_done wc then Some (W2Exited, wc) else None
  | W2Loop, Recv =>
      match chan_recv (stage2Chan wc) with
      | Some (r, q) => Some (W2Handoff (processStage2_result r), set_stage2Chan q wc)
      | None => None
      end
  | W2Handoff r, Send =>
      match chan_send (stage3Chan wc) r with
      | Some q => Some (W2Loop, set_stage3Chan q wc)
      | None => None
      end
  | W2Handoff r, Abort =>
      if ctx_done wc then Some (W2Loop, wc) else None
  | _, _ => None
  end.

(** [stage3Worker] and [processStage3]. *)
Definition stage3Worker (ch : choice) (pc : stage3_pc) (wc : workCoordinator)
    (now : Z) : option (stage3_pc * workCoordinator) :=
  match pc, ch with
  | W3Loop, Exit =>
      if ctx_done wc then Some (W3Exited, wc) else None
  | W3Loop, Recv =>
      match chan_recv (stage3Chan wc) with
      | Some (r, q) => Some (W3Release r, set_stage3Chan q wc)
      | None => None
      end
  | W3Release r, Release =>
      match chan_recv (workSemaphore wc) with
      | Some (_, sem) => Some (W3Measure r, set_workSemaphore sem wc)
      | None => None
      end
  | W3Measure r, Measure =>
      Some (W3TrackEnd r (time_Since now (CreatedAt r)), wc)
  | W3TrackEnd r latency, TrackEnd =>
      Some (W3Loop, trackJobEnd latency true wc)
  | _, _ => None
  end.

Definition thread_step (ch : choice) (t : thread) (wc : workCoordinator)
    (now : Z) (cancelled : list context) : option (thread * workCoordinator) :=
  match t with
  | Submitter pc =>
      match SubmitJob ch pc wc now cancelled with
      | Some (pc', wc') => Some (Submitter pc', wc')
      | None => None
      end
  | Stage1 pc =>
      match stage1Worker ch pc wc now cancelled with
      | Some (pc', wc') => Some (Stage1 pc', wc')
      | None => None
      end
  | Stage2 pc =>
      match stage2Worker ch pc wc with
      | Some (pc', wc') => Some (Stage2 pc', wc')
      | None => None
      end
  | Stage3 pc =>
      match stage3Worker ch pc wc now with
      | Some (pc', wc') => Some (Stage3 pc', wc')
      | None => None
      end
  end.

(** ** The whole system *)

Record system : Type := mk_system {
  coord : workCoordinator;
  clock : Z;
  cancelled : list context;
  threads : list thread
}.

Inductive event : Type :=
| Tick (d : Z)                        (* time passes *)
| Cancel (c : context)                (* a request context is done *)
| CallStart                           (* wc.Start() *)
| CallStop                            (* wc.Stop() *)
| CallSubmit (c : context) (data : string)  (* a goroutine enters SubmitJob *)
| Run (tid : nat) (ch : choice).      (* goroutine [tid] takes one step *)

(** [wc.Start()] launches the three pools. *)
Definition Start (wc : workCoordinator) : list thread :=
  replicate (Z.to_nat (stage1Workers wc)) (Stage1 W1Loop) ++
  replicate (Z.to_nat (stage2Workers wc)) (Stage2 W2Loop) ++
  replicate (Z.to_nat (stage3Workers wc)) (Stage3 W3Loop).

Definition step (s : system) (e : event) : option system :=
  match e with
  | Tick d =>
      if d <? 0 then None
      else Some (mk_system (coord s) (clock s + d) (cancelled s) (threads s))
  | Cancel c =>
      Some (mk_system (coord s) (clock s) (c :: cancelled s) (threads s))
  | CallStart =>
      Some (mk_system (coord s) (clock s) (cancelled s)
              (threads s ++ Start (coord s)))
  | CallStop =>
      Some (mk_system (Stop (coord s)) (clock s) (cancelled s) (threads s))
  | CallSubmit c data =>
      Some (mk_system (coord s) (clock s) (cancelled s)
              (threads s ++
               [Submitter (SGate c data (clock s + admissionTimeout))]))
  | Run tid ch =>
      match threads s !! tid with
      | None => None
      | Some t =>
          match thread_step ch t (coord s) (clock s) (cancelled s) with
          | None => None
          | Some (t', wc') =>
              Some (mk_system wc' (clock s) (cancelled s)
                      (<[tid := t']> (threads s)))
          end
      end
  end.

Fixpoint run (s : system) (tr : list event) : option system :=
  match tr with
  | [] => Some s
  | e :: tr' =>
      match step s e with
      | Some s' => run s' tr'
      | None => None
      end
  end.

(** A freshly constructed coordinator, at time [t0], with no goroutine. *)
Definition boot (wc : workCoordinator) (t0 : Z) : system :=
  mk_system wc t0 [] [].

(** ** Observations on traces and states *)

Definition is_acquire (e : event) : bool :=
  match e with Run _ Acquire => true | _ => false end.
Definition is_release (e : event) : bool :=
  match e with Run _ Release => true | _ => false end.
Definition is_abort (e : event) : bool :=
  match e with Run _ Abort => true | _ => false end.

Definition count (p : event -> bool) (tr : list event) : Z :=
  Z.of_nat (length (filter (fun e => p e = true) tr)).

(** Token acquisitions and releases performed along a trace, and items
    left behind by a [processStageN] that returned on shutdown. *)
Definition acquired (tr : list event) : Z := count is_acquire tr.
Definition released (tr : list event) : Z := count is_release tr.
Definition dropped (tr : list event) : Z := count is_abort tr.

(** Does the goroutine carry an item whose token is still held? *)
Definition holds (t : thread) : Z :=
  match t with
  | Submitter (SAcquired _ _) | Submitter (SCreated _)
  | Submitter (SHandoff _ _) | Submitter (SRelease _ _) => 1
  | Stage1 (W1Handoff _) | Stage1 (W1Release _) => 1
  | Stage2 (W2Handoff _) => 1
  | Stage3 (W3Release _) => 1
  | _ => 0
  end.

Definition sumZ {A : Type} (f : A -> Z) (l : list A) : Z :=
  foldr (fun x acc => f x + acc) 0 l.

Definition queued (wc : workCoordinator) : Z :=
  chan_len (stage1Chan wc) + chan_len (stage2Chan wc) + chan_len (stage3Chan wc).

(** Items in the states [Admitted] to [InStage3]: carried by a goroutine
    or waiting in a stage queue. *)
Definition in_flight (s : system) : Z :=
  sumZ holds (threads s) + queued (coord s).

Definition occupancy (s : system) : Z := chan_len (workSemaphore (coord s)).

(** Every goroutine has left: calls have returned, workers have exited. *)
Definition finished (t : thread) : bool :=
  match t with
  | Submitter (SReturned _) => true
  | Stage1 W1Exited | Stage2 W2Exited | Stage3 W3Exited => true
  | _ => false
  end.

Definition drained (s : system) : bool := forallb finished (threads s).

(** Contribution of one goroutine step to the three trace counters. *)
Definition acq_of (ch : choice) : Z := match ch with Acquire => 1 | _ => 0 end.
Definition rel_of (ch : choice) : Z := match ch with Release => 1 | _ => 0 end.
Definition drop_of (ch : choice) : Z := match ch with Abort => 1 | _ => 0 end.


(** The token accounting that every execution maintains: the semaphore's
    fill level is the number of acquisitions not yet matched by a release,
    which is the number of items still in flight plus those a worker left
    behind on shutdown, and it never exceeds the capacity. *)
Definition token_inv (maxConcurrent : Z) (tr : list event) (s : system) : Prop :=
  occupancy s = acquired tr - released tr /\
  in_flight s + dropped tr = occupancy s /\
  cap (workSemaphore (coord s)) = maxConcurrent /\
  occupancy s <= maxConcurrent.

(** Construct a coordinator and run a trace on it. *)
Definition launch (maxConcurrent t0 : Z) (tr : list event) : option system :=
  match newWorkCoordinator maxConcurrent with
  | Some wc => run (boot wc t0) tr
  | None => None
  end.

(** ** Scenarios *)

(** One admission. *)
Definition one_admission : list event :=
  [CallSubmit 0%nat "a"; Run 0 Acquire].

(** An item is between stage 1 and stage 2 when [Stop] is called: the
    select of [processStage1] has two ready cases and takes the shutdown
    one; then every worker leaves its loop. *)
Definition stop_in_flight : list event :=
  [CallStart; CallSubmit 0%nat "a";
   Run 10 Acquire; Run 10 (Create 7); Run 10 TrackStart; Run 10 Send;
   Run 0 Recv; CallStop; Run 0 Abort;
   Run 0 Exit; Run 1 Exit; Run 2 Exit; Run 3 Exit; Run 4 Exit;
   Run 5 Exit; Run 6 Exit; Run 7 Exit; Run 8 Exit; Run 9 Exit].

(** A completed item: admitted, through the three stages, counted. *)
Definition complete_one : list event :=
  [CallStart; CallSubmit 0%nat "a";
   Run 10 Acquire; Run 10 (Create 7); Run 10 TrackStart; Run 10 Send;
   Run 0 Recv; Tick (50 * Millisecond); Run 0 Send;
   Run 5 Recv; Tick (100 * Millisecond); Run 5 Send;
   Run 8 Recv; Tick (200 * Millisecond); Run 8 Release; Run 8 Measure; Run 8 TrackEnd].

(** ** The configuration surface *)

Record configuration : Type := mk_configuration {
  cfg_maxConcurrent : Z;
  cfg_workers : Z * Z * Z;
  cfg_capacities : Z * Z * Z;
  cfg_admissionTimeout : Z;
  cfg_stage1HandoffTimeout : Z
}.

(** The configuration a constructed coordinator runs with. *)
Definition configuration_of (wc : workCoordinator) : configuration :=
  mk_configuration
    (cap (workSemaphore wc))
    (stage1Workers wc, stage2Workers wc, stage3Workers wc)
    (cap (stage1Chan wc), cap (stage2Chan wc), cap (stage3Chan wc))
    admissionTimeout
    stage1HandoffTimeout.

(** What it would mean for the constructor to accept all five parameters:
    every configuration can be obtained from some call of it. *)
Definition accepts_every_configuration : Prop :=
  forall cfg : configuration,
    0 <= cfg_maxConcurrent cfg ->
    exists n wc, newWorkCoordinator n = Some wc /\ configuration_of wc = cfg.

Definition six_stage1_workers : configuration :=
  mk_configuration 50 (6, 3, 2) (5, 3, 2) (100 * Millisecond) (1 * Second).

(** ** Provenance of items *)

(** The job a step creates, if it is the step of [SubmitJob] that builds
    one. *)
Definition created_by (s : system) (e : event) : list job :=
  match e with
  | Run tid (Create id) =>
      match threads s !! tid with
      | Some (Submitter (SAcquired c data)) => [mk_job id data (clock s) c]
      | _ => []
      end
  | _ => []
  end.

(** All jobs created by [SubmitJob] along an execution, oldest first. *)
Fixpoint submitted (s : system) (tr : list event) : list job :=
  match tr with
  | [] => []
  | e :: tr' =>
      match step s e with
      | Some s' => created_by s e ++ submitted s' tr'
      | None => []
      end
  end.

Definition from_job (L : list job) (j : job) : Prop := In j L.
Definition from_stage1 (L : list job) (r : stage1Result) : Prop :=
  exists j, In j L /\ r = processStage1_result j.
Definition from_stage2 (L : list job) (r : stage1Result) : Prop :=
  exists j, In j L /\ r = processStage2_result (processStage1_result j).

(** What a goroutine carries stems from a submitted job. *)
Definition carries (L : list job) (t : thread) : Prop :=
  match t with
  | Submitter (SCreated j) | Submitter (SHandoff j _)
  | Submitter (SRelease j _) | Submitter (STrackEnd j _) => from_job L j
  | Stage1 (W1Handoff j) | Stage1 (W1Release j)
  | Stage1 (W1TrackEnd j) => from_job L j
  | Stage2 (W2Handoff r) => from_stage2 L r
  | Stage3 (W3Release r) | Stage3 (W3Measure r)
  | Stage3 (W3TrackEnd r _) => from_stage2 L r
  | _ => True
  end.

Definition queues_from (L : list job) (wc : workCoordinator) : Prop :=
  Forall (from_job L) (buf (stage1Chan wc)) /\
  Forall (from_stage1 L) (buf (stage2Chan wc)) /\
  Forall (from_stage2 L) (buf (stage3Chan wc)).

Definition provenance (L : list job) (s : system) : Prop :=
  Forall (carries L) (threads s) /\ queues_from L (coord s).

Definition launch_submitted (maxConcurrent t0 : Z) (tr : list event) : list job :=
  match newWorkCoordinator maxConcurrent with
  | Some wc => submitted (boot wc t0) tr
  | None => []
  end.

(** Same item: same identifier, same creation time. *)
Definition same_item (r : stage1Result) (j : job) : Prop :=
  JobID r = job_ID j /\ CreatedAt r = job_CreatedAt j.

(** ** The ledger of one call *)

Definition ch_acquire (ch : choice) : bool :=
  match ch with Acquire => true | _ => false end.
Definition ch_release (ch : choice) : bool :=
  match ch with Release => true | _ => false end.
Definition ch_start (ch : choice) : bool :=
  match ch with TrackStart => true | _ => false end.
Definition ch_end (ch : choice) : bool :=
  match ch with TrackEnd => true | _ => false end.
Definition ch_send (ch : choice) : bool :=
  match ch with Send => true | _ => false end.
Definition ch_reject (ch : choice) : bool :=
  match ch with Reject => true | _ => false end.

Definition by_thread (tid : nat) (p : choice -> bool) (e : event) : bool :=
  match e with
  | Run t ch => Nat.eqb t tid && p ch
  | _ => false
  end.

(** How many steps of kind [p] goroutine [tid] has taken along [tr]. *)
Definition own (tid : nat) (p : choice -> bool) (tr : list event) : Z :=
  count (by_thread tid p) tr.

(** The operations one goroutine has performed: semaphore sends and
    receives, [trackJobStart]s and [trackJobEnd]s, stage sends,
    [recordRejection]s. *)
Record ledger : Type := mk_ledger {
  l_acquired : Z;
  l_released : Z;
  l_started : Z;
  l_ended : Z;
  l_sent : Z;
  l_rejected : Z
}.

Definition ledger_of (tid : nat) (tr : list event) : ledger :=
  mk_ledger (own tid ch_acquire tr) (own tid ch_release tr)
    (own tid ch_start tr) (own tid ch_end tr)
    (own tid ch_send tr) (own tid ch_reject tr).

Definition ledger_add (ch : choice) (l : ledger) : ledger :=
  mk_ledger
    (l_acquired l + (if ch_acquire ch then 1 else 0))
    (l_released l + (if ch_release ch then 1 else 0))
    (l_started l + (if ch_start ch then 1 else 0))
    (l_ended l + (if ch_end ch then 1 else 0))
    (l_sent l + (if ch_send ch then 1 else 0))
    (l_rejected l + (if ch_reject ch then 1 else 0)).

Definition gate_error (err : string) : Prop :=
  err = err_cancelled \/ err = err_capacity.
Definition handoff_error (err : string) : Prop :=
  err = err_backed_up \/ err = err_cancelled.

(** The ledger a call of [SubmitJob] must show at each program point. *)
Definition ledger_at (pc : submit_pc) (l : ledger) : Prop :=
  match pc with
  | SGate _ _ _ => l = mk_ledger 0 0 0 0 0 0
  | SRejected err => l = mk_ledger 0 0 0 0 0 0 /\ gate_error err
  | SAcquired _ _ => l = mk_ledger 1 0 0 0 0 0
  | SCreated _ => l = mk_ledger 1 0 0 0 0 0
  | SHandoff _ _ => l = mk_ledger 1 0 1 0 0 0
  | SRelease _ err => l = mk_ledger 1 0 1 0 0 0 /\ handoff_error err
  | STrackEnd _ err => l = mk_ledger 1 1 1 0 0 0 /\ handoff_error err
  | SReturned None => l = mk_ledger 1 0 1 0 1 0
  | SReturned (Some err) =>
      (l = mk_ledger 0 0 0 0 0 1 /\ gate_error err) \/
      (l = mk_ledger 1 1 1 1 0 0 /\ handoff_error err)
  end.

Definition ledger_inv (tr : list event) (s : system) : Prop :=
  forall tid,
    match threads s !! tid with
    | Some (Submitter pc) => ledger_at pc (ledger_of tid tr)
    | Some _ => True
    | None => ledger_of tid tr = mk_ledger 0 0 0 0 0 0
    end.

(** Two calls while nothing drains stage 1 ... *)
Definition reject_at_gate : list event :=
  [CallSubmit 0%nat "a"; Run 0 Acquire; Run 0 (Create 7); Run 0 TrackStart; Run 0 Send;
   CallSubmit 1%nat "b"; Tick (100 * Millisecond); Run 1 TimedOut; Run 1 Reject].

(** Six calls with room for six tokens while nothing drains stage 1: five
    jobs fill the stage-1 queue, the sixth waits out its hand-off timer. *)
Definition stage1_backed_up : list event :=
  [CallSubmit 0%nat "a"; Run 0 Acquire; Run 0 (Create 1); Run 0 TrackStart; Run 0 Send;
   CallSubmit 1%nat "b"; Run 1 Acquire; Run 1 (Create 2); Run 1 TrackStart; Run 1 Send;
   CallSubmit 2%nat "c"; Run 2 Acquire; Run 2 (Create 3); Run 2 TrackStart; Run 2 Send;
   CallSubmit 3%nat "d"; Run 3 Acquire; Run 3 (Create 4); Run 3 TrackStart; Run 3 Send;
   CallSubmit 4%nat "e"; Run 4 Acquire; Run 4 (Create 5); Run 4 TrackStart; Run 4 Send;
   CallSubmit 5%nat "f"; Run 5 Acquire; Run 5 (Create 6); Run 5 TrackStart;
   Tick (1 * Second); Run 5 TimedOut; Run 5 Release; Run 5 TrackEnd].

(** An item reaches the stage-2 queue and its context is cancelled
    there ... *)
Definition cancel_in_stage2_queue : list event :=
  [CallStart; CallSubmit 0%nat "a";
   Run 10 Acquire; Run 10 (Create 7); Run 10 TrackStart; Run 10 Send;
   Run 0 Recv; Run 0 Send; Cancel 0%nat].

(** ... and this is how the pipeline goes on with it. *)
Definition after_cancel_in_stage2 : list event :=
  [Run 5 Recv; Run 5 Send; Run 8 Recv; Run 8 Release; Run 8 Measure; Run 8 TrackEnd].

(** [Stop], all workers leave, then a call of [SubmitJob]. *)
Definition submit_after_stop : list event :=
  [CallStart; CallStop;
   Run 0 Exit; Run 1 Exit; Run 2 Exit; Run 3 Exit; Run 4 Exit;
   Run 5 Exit; Run 6 Exit; Run 7 Exit; Run 8 Exit; Run 9 Exit;
   CallSubmit 0%nat "a"; Run 10 Acquire; Run 10 (Create 7); Run 10 TrackStart; Run 10 Send].

(** A worker standing at the select of its loop, and the queue it
    drains. *)
Definition at_loop (t : thread) : bool :=
  match t with
  | Stage1 W1Loop | Stage2 W2Loop | Stage3 W3Loop => true
  | _ => false
  end.

Definition exited (t : thread) : bool :=
  match t with
  | Stage1 W1Exited | Stage2 W2Exited | Stage3 W3Exited => true
  | _ => false
  end.

Definition own_queue_empty (t : thread) (wc : workCoordinator) : bool :=
  match t with
  | Stage1 _ => match buf (stage1Chan wc) with [] => true | _ => false end
  | Stage2 _ => match buf (stage2Chan wc) with [] => true | _ => false end
  | Stage3 _ => match buf (stage3Chan wc) with [] => true | _ => false end
  | Submitter _ => false
  end.

Definition exit_of (t : thread) : thread :=
  match t with
  | Stage1 _ => Stage1 W1Exited
  | Stage2 _ => Stage2 W2Exited
  | Stage3 _ => Stage3 W3Exited
  | Submitter pc => Submitter pc
  end.

(** ** Further observations: shape of the coordinator, the active count *)

(** The constants of the constructor and the bounds of the three queues. *)
Definition shape_inv (wc : workCoordinator) : Prop :=
  (stage1Workers wc, stage2Workers wc, stage3Workers wc) = (5, 3, 2) /\
  (cap (stage1Chan wc), cap (stage2Chan wc), cap (stage3Chan wc)) = (5, 3, 2) /\
  chan_len (stage1Chan wc) <= 5 /\
  chan_len (stage2Chan wc) <= 3 /\
  chan_len (stage3Chan wc) <= 2.

(** The goroutine holds a token that [trackJobStart] has not counted yet. *)
Definition pending_start (t : thread) : Z :=
  match t with
  | Submitter (SAcquired _ _) | Submitter (SCreated _) => 1
  | _ => 0
  end.

(** The goroutine has given its token back and [trackJobEnd] has not
    counted that yet. *)
Definition pending_end (t : thread) : Z :=
  match t with
  | Submitter (STrackEnd _ _) => 1
  | Stage1 (W1TrackEnd _) => 1
  | Stage3 (W3Measure _) | Stage3 (W3TrackEnd _ _) => 1
  | _ => 0
  end.

(** What [activeJobs] stands at: the tokens out, corrected by the
    goroutines caught between a semaphore operation and its metric. *)
Definition tracked (s : system) : Z :=
  occupancy s - sumZ pending_start (threads s) + sumZ pending_end (threads s).

(** ** Further observations: timers, time stamps, measured latencies *)

(** The timer a call is waiting on was armed no longer ago than its
    duration. *)
Definition deadline_ok (now : Z) (t : thread) : Prop :=
  match t with
  | Submitter (SGate _ _ deadline) => deadline <= now + admissionTimeout
  | Submitter (SHandoff _ deadline) => deadline <= now + stage1HandoffTimeout
  | _ => True
  end.

(** The longest a call can have to wait at a program point before one of
    its own steps is ready. *)
Definition wait_bound (pc : submit_pc) : Z :=
  match pc with
  | SGate _ _ _ => admissionTimeout
  | SHandoff _ _ => stage1HandoffTimeout
  | _ => 0
  end.

(** Creation times lie between the start of the execution and now;
    a measured latency is not negative and not longer than the
    execution. *)
Definition stamp_ok (t0 now c : Z) : Prop := t0 <= c <= now.

Definition stamped (t0 now : Z) (t : thread) : Prop :=
  match t with
  | Submitter (SCreated j) | Submitter (SHandoff j _)
  | Submitter (SRelease j _) | Submitter (STrackEnd j _) =>
      stamp_ok t0 now (job_CreatedAt j)
  | Stage1 (W1Handoff j) | Stage1 (W1Release j) | Stage1 (W1TrackEnd j) =>
      stamp_ok t0 now (job_CreatedAt j)
  | Stage2 (W2Handoff r) | Stage3 (W3Release r) | Stage3 (W3Measure r) =>
      stamp_ok t0 now (CreatedAt r)
  | Stage3 (W3TrackEnd r latency) =>
      stamp_ok t0 now (CreatedAt r) /\ 0 <= latency <= now - t0
  | _ => True
  end.

Definition queues_stamped (t0 now : Z) (wc : workCoordinator) : Prop :=
  Forall (fun j => stamp_ok t0 now (job_CreatedAt j)) (buf (stage1Chan wc)) /\
  Forall (fun r => stamp_ok t0 now (CreatedAt r)) (buf (stage2Chan wc)) /\
  Forall (fun r => stamp_ok t0 now (CreatedAt r)) (buf (stage3Chan wc)).

Definition stamps_inv (t0 : Z) (s : system) : Prop :=
  t0 <= clock s /\
  Forall (stamped t0 (clock s)) (threads s) /\
  queues_stamped t0 (clock s) (coord s).

(** The latency a step adds to the metrics, if it is the
    [trackJobEnd(latency, true)] of [processStage3]. *)
Definition completed_by (s : system) (e : event) : list Z :=
  match e with
  | Run tid TrackEnd =>
      match threads s !! tid with
      | Some (Stage3 (W3TrackEnd _ latency)) => [latency]
      | _ => []
      end
  | _ => []
  end.

(** The latencies of all items completed along an execution. *)
Fixpoint latencies (s : system) (tr : list event) : list Z :=
  match tr with
  | [] => []
  | e :: tr' =>
      match step s e with
      | Some s' => completed_by s e ++ latencies s' tr'
      | None => []
      end
  end.

Definition launch_latencies (maxConcurrent t0 : Z) (tr : list event) : list Z :=
  match newWorkCoordinator maxConcurrent with
  | Some wc => latencies (boot wc t0) tr
  | None => []
  end.

Definition total (l : list Z) : Z := sumZ (fun x => x) l.

(** ** Further observations: the worker pools *)

Definition is_worker (t : thread) : bool :=
  match t with Submitter _ => false | _ => true end.

(** A worker that carries an item or is finishing one off. *)
Definition busy (t : thread) : bool :=
  match t with
  | Stage1 (W1Handoff _) | Stage1 (W1Release _) | Stage1 (W1TrackEnd _) => true
  | Stage2 (W2Handoff _) => true
  | Stage3 (W3Release _) | Stage3 (W3Measure _) | Stage3 (W3TrackEnd _ _) => true
  | _ => false
  end.

(** A worker inside [processStageN] at a point that is not a select. *)
Definition finishing (t : thread) : bool :=
  match t with
  | Stage1 (W1Release _) | Stage1 (W1TrackEnd _) => true
  | Stage3 (W3Release _) | Stage3 (W3Measure _) | Stage3 (W3TrackEnd _ _) => true
  | _ => false
  end.

Definition same_kind (t t' : thread) : Prop :=
  match t, t' with
  | Submitter _, Submitter _ | Stage1 _, Stage1 _
  | Stage2 _, Stage2 _ | Stage3 _, Stage3 _ => True
  | _, _ => False
  end.

(** Each of the three pools has a goroutine. *)
Definition pools_present (s : system) : Prop :=
  (exists i pc, threads s !! i = Some (Stage1 pc)) /\
  (exists i pc, threads s !! i = Some (Stage2 pc)) /\
  (exists i pc, threads s !! i = Some (Stage3 pc)).

(** * The service around the coordinator *)

(** [NewFixedService()]: the service owns one coordinator, built for at
    most 50 concurrent jobs. *)
Definition NewFixedService : option workCoordinator := newWorkCoordinator 50.

Definition StatusOK : Z := 200.
Definition StatusAccepted : Z := 202.
Definition StatusServiceUnavailable : Z := 503.

(** [fmt.Sprintf("request-%d", n)] for the non-negative [n] of [rand.Int]. *)
Definition request_data (rnd : Z) : string :=
  String.append "request-" (NilZero.string_of_int (Z.to_int rnd)).

(** What [HandleRequest] writes once [SubmitJob] has returned: the status
    and the body. *)
Definition response (r : option string) : Z * string :=
  match r with
  | Some err =>
      (StatusServiceUnavailable, String.append "System at capacity: " err)
  | None => (StatusAccepted, "job accepted"%string)
  end.

(** The context deadline set by [HandleRequest]. *)
Definition requestTimeout : Z := 5 * Second.

(** [HealthCheck]: the status written, and the four values printed into
    the body (their rendering is [fmt]'s).  [None] would be a panic of
    [GetMetrics]. *)
Definition HealthCheck (wc : workCoordinator) : option (Z * (Z * Z * Z * Z)) :=
  match GetMetrics wc with
  | Some (active, completed, rejected, avgLatency) =>
      Some (if rejected >? completed then StatusServiceUnavailable else StatusOK,
            (active, completed, rejected, avgLatency))
  | None => None
  end.

(** Program points of one run of [HandleRequest].  Its context is named
    by the position of the request in the table below; the [SubmitJob] it
    calls is the goroutine [rq_call] of the coordinator's machine. *)
Inductive handler_pc : Type :=
| HCalling                                (* inside s.coordinator.SubmitJob(..) *)
| HResponded (status : Z) (body : string) (* response written; before the deferred cancel() *)
| HReturned (status : Z) (body : string).

Record request : Type := mk_request {
  rq_call : nat;
  rq_deadline : Z;
  rq_pc : handler_pc
}.

Record service : Type := mk_service {
  machine : system;
  requests : list request
}.

Inductive service_event : Type :=
| Env (e : event)       (* a step of the coordinator's goroutines, the clock,
                           a client going away, or s.Start() *)
| Request (rnd : Z)     (* a request reaches HandleRequest; [rnd] is rand.Int() *)
| Expire (i : nat)      (* the deadline of request [i]'s context passes *)
| Respond (i : nat)     (* request [i]: w.WriteHeader(..); fmt.Fprintf(w, ..) *)
| Return (i : nat).     (* request [i]: return, running the deferred cancel() *)

Definition set_pc (pc : handler_pc) (rq : request) : request :=
  mk_request (rq_call rq) (rq_deadline rq) pc.

(** Nothing in the service calls [Stop], and [SubmitJob] is called by
    [HandleRequest] only. *)
Definition service_step (sv : service) (e : service_event) : option service :=
  match e with
  | Env (CallSubmit _ _) | Env CallStop => None
  | Env e' =>
      match step (machine sv) e' with
      | Some m => Some (mk_service m (requests sv))
      | None => None
      end
  | Request rnd =>
      if rnd <? 0 then None
      else
        match step (machine sv)
                (CallSubmit (length (requests sv)) (request_data rnd)) with
        | Some m =>
            Some (mk_service m
                    (requests sv ++
                     [mk_request (length (threads (machine sv)))
                        (clock (machine sv) + requestTimeout) HCalling]))
        | None => None
        end
  | Expire i =>
      match requests sv !! i with
      | Some rq =>
          if rq_deadline rq <=? clock (machine sv) then
            match step (machine sv) (Cancel i) with
            | Some m => Some (mk_service m (requests sv))
            | None => None
            end
          else None
      | None => None
      end
  | Respond i =>
      match requests sv !! i with
      | Some rq =>
          match rq_pc rq, threads (machine sv) !! rq_call rq with
          | HCalling, Some (Submitter (SReturned r)) =>
              let '(status, body) := response r in
              Some (mk_service (machine sv)
                      (<[i := set_pc (HResponded status body) rq]> (requests sv)))
          | _, _ => None
          end
      | None => None
      end
  | Return i =>
      match requests sv !! i with
      | Some rq =>
          match rq_pc rq with
          | HResponded status body =>
              match step (machine sv) (Cancel i) with
              | Some m =>
                  Some (mk_service m
                          (<[i := set_pc (HReturned status body) rq]> (requests sv)))
              | None => None
              end
          | _ => None
          end
      | None => None
      end
  end.

Fixpoint service_run (sv : service) (tr : list service_event) : option service :=
  match tr with
  | [] => Some sv
  | e :: tr' =>
      match service_step sv e with
      | Some sv' => service_run sv' tr'
      | None => None
      end
  end.

(** The service as [RunGoodDesign] sets it up, at time [t0]. *)
Definition serve (t0 : Z) (tr : list service_event) : option service :=
  match NewFixedService with
  | Some wc => service_run (mk_service (boot wc t0) []) tr
  | None => None
  end.

(** The coordinator's events behind a service trace; [k] requests have
    come in before it. *)
Fixpoint project (k : nat) (tr : list service_event) : list event :=
  match tr with
  | [] => []
  | Env e :: tr' => e :: project k tr'
  | Request rnd :: tr' => CallSubmit k (request_data rnd) :: project (S k) tr'
  | Expire i :: tr' => Cancel i :: project k tr'
  | Respond _ :: tr' => project k tr'
  | Return i :: tr' => Cancel i :: project k tr'
  end.

Definition is_reject (e : event) : bool :=
  match e with Run _ Reject => true | _ => false end.

(** A request is accepted, its handler returns, and the stage-1 worker
    that has picked the job up is about to hand it on. *)
Definition accepted_then_returned : list service_event :=
  [Env CallStart; Request 42;
   Env (Run 10 Acquire); Env (Run 10 (Create 7)); Env (Run 10 TrackStart);
   Env (Run 10 Send); Respond 0; Return 0; Env (Run 0 Recv)].

(** The context a call of [SubmitJob] runs with, while it still matters. *)
Definition ctx_of_pc (pc : submit_pc) : option context :=
  match pc with
  | SGate c _ _ | SAcquired c _ => Some c
  | SCreated j | SHandoff j _ | SRelease j _ | STrackEnd j _ => Some (job_ctx j)
  | SRejected _ | SReturned _ => None
  end.

(** What the table of requests says about the coordinator's machine:
    request [i] made the call [rq_call], which runs with context [i]; a
    response is the one [HandleRequest] derives from what the call
    returned; the context of a returned handler is done. *)
Definition request_ok (s : system) (i : nat) (rq : request) : Prop :=
  (exists pc, threads s !! rq_call rq = Some (Submitter pc) /\
              (ctx_of_pc pc = Some i \/ ctx_of_pc pc = None)) /\
  match rq_pc rq with
  | HCalling => True
  | HResponded status body =>
      exists r, threads s !! rq_call rq = Some (Submitter (SReturned r)) /\
                response r = (status, body)
  | HReturned status body =>
      (exists r, threads s !! rq_call rq = Some (Submitter (SReturned r)) /\
                 response r = (status, body)) /\
      ctx_Done (cancelled s) i = true
  end.

Definition requests_inv (sv : service) : Prop :=
  forall i rq, requests sv !! i = Some rq -> request_ok (machine sv) i rq.

(** The contexts that goroutines and the stage-1 queue refer to belong to
    requests that have come in. *)
Definition ctx_below (k : nat) (t : thread) : Prop :=
  match t with
  | Submitter pc =>
      match ctx_of_pc pc with Some c => (c < k)%nat | None => True end
  | Stage1 (W1Handoff j) | Stage1 (W1Release j) | Stage1 (W1TrackEnd j) =>
      (job_ctx j < k)%nat
  | _ => True
  end.

Definition contexts_inv (sv : service) : Prop :=
  Forall (ctx_below (length (requests sv))) (threads (machine sv)) /\
  Forall (fun j => (job_ctx j < length (requests sv))%nat)
    (buf (stage1Chan (coord (machine sv)))).

(** * The broken service of rule 1 (bad design)

    The counter-example of the lesson: one goroutine per request, large
    buffers, no admission control.  Same embedding as above; the names of
    [bad_design.go] live in their own module. *)

Module Broken.

(** [type brokenService struct] *)
Record brokenService : Type := mk_brokenService {
  stage1Chan : chan job;
  stage2Chan : chan stage1Result;
  stage3Chan : chan stage1Result;
  activeGoroutines : Z
}.

Definition newBrokenService : brokenService :=
  mk_brokenService (mk_chan [] 10000) (mk_chan [] 10000) (mk_chan [] 10000) 0.

Definition set_stage1Chan (c : chan job) (b : brokenService) :=
  mk_brokenService c (stage2Chan b) (stage3Chan b) (activeGoroutines b).
Definition set_stage2Chan (c : chan stage1Result) (b : brokenService) :=
  mk_brokenService (stage1Chan b) c (stage3Chan b) (activeGoroutines b).
Definition set_stage3Chan (c : chan stage1Result) (b : brokenService) :=
  mk_brokenService (stage1Chan b) (stage2Chan b) c (activeGoroutines b).

(** [trackGoroutine(delta)]; its warning goes to the log only. *)
Definition trackGoroutine (delta : Z) (b : brokenService) : brokenService :=
  mk_brokenService (stage1Chan b) (stage2Chan b) (stage3Chan b)
    (wrap64 (activeGoroutines b + delta)).

Definition getGoroutineCount (b : brokenService) : Z := activeGoroutines b.

(** The wait of the per-request goroutine on stage 1. *)
Definition sendTimeout : Z := 30 * Second.

(** [HealthCheck]: always [StatusOK]; the values printed are the
    goroutine count and the three queue lengths. *)
Definition HealthCheck (b : brokenService) : Z * (Z * Z * Z * Z) :=
  (StatusOK,
   (getGoroutineCount b, chan_len (stage1Chan b), chan_len (stage2Chan b),
    chan_len (stage3Chan b))).

(** The result built by this [stage1Worker]: stamped with the time at
    which stage 1 finished, not with the job's creation time. *)
Definition stage1_result (j : job) (now : Z) : stage1Result :=
  mk_stage1Result (job_ID j) (String.append "stage1-" (job_Data j)) 1 now.

(** [HandleRequest] after its [go] statement. *)
Inductive handler_pc : Type :=
| HSpawned (id : Z)                     (* before w.WriteHeader / fmt.Fprintf *)
| HAnswered (status id goroutines : Z).

(** The goroutine [HandleRequest] spawns for each request. *)
Inductive sender_pc : Type :=
| GTrack (j : job)                      (* before s.trackGoroutine(1) *)
| GSelect (j : job) (deadline : Z)      (* blocked in the select; 30s timer *)
| GUntrack (sent : bool)                (* before the deferred s.trackGoroutine(-1) *)
| GDone (sent : bool).

Inductive worker1_pc : Type :=
| B1Loop                                (* for job := range s.stage1Chan *)
| B1Work (j : job)                      (* before result := stage1Result{.., time.Now()} *)
| B1Send (j : job) (r : stage1Result).  (* blocked in s.stage2Chan <- result *)

Inductive worker2_pc : Type :=
| B2Loop
| B2Send (r : stage1Result).            (* blocked in s.stage3Chan <- result *)

Inductive worker3_pc : Type :=
| B3Loop
| B3Work (r : stage1Result).            (* before age := time.Since(result.CreatedAt) *)

Inductive thread : Type :=
| Handler (pc : handler_pc)
| Sender (pc : sender_pc)
| Worker1 (pc : worker1_pc)
| Worker2 (pc : worker2_pc)
| Worker3 (pc : worker3_pc).

Inductive choice : Type :=
| Respond     (* w.WriteHeader(202); fmt.Fprintf(w, .., s.getGoroutineCount()) *)
| Track       (* s.trackGoroutine(1) *)
| Send        (* a channel send commits *)
| TimedOut    (* case <-time.After(30 * time.Second) *)
| Untrack     (* the deferred s.trackGoroutine(-1) *)
| Recv        (* the range loop receives *)
| Stamp       (* result := stage1Result{.., CreatedAt: time.Now()} *)
| Measure.    (* age := time.Since(result.CreatedAt) *)

Definition thread_step (ch : choice) (t : thread) (b : brokenService)
    (now : Z) : option (thread * brokenService) :=
  match t, ch with
  | Handler (HSpawned id), Respond =>
      Some (Handler (HAnswered StatusAccepted id (getGoroutineCount b)), b)
  | Sender (GTrack j), Track =>
      Some (Sender (GSelect j (now + sendTimeout)), trackGoroutine 1 b)
  | Sender (GSelect j _), Send =>
      match chan_send (stage1Chan b) j with
      | Some q => Some (Sender (GUntrack true), set_stage1Chan q b)
      | None => None
      end
  | Sender (GSelect _ deadline), TimedOut =>
      if deadline <=? now then Some (Sender (GUntrack false), b) else None
  | Sender (GUntrack sent), Untrack =>
      Some (Sender (GDone sent), trackGoroutine (-1) b)
  | Worker1 B1Loop, Recv =>
      match chan_recv (stage1Chan b) with
      | Some (j, q) => Some (Worker1 (B1Work j), set_stage1Chan q b)
      | None => None
      end
  | Worker1 (B1Work j), Stamp =>
      Some (Worker1 (B1Send j (stage1_result j now)), b)
  | Worker1 (B1Send _ r), Send =>
      match chan_send (stage2Chan b) r with
      | Some q => Some (Worker1 B1Loop, set_stage2Chan q b)
      | None => None
      end
  | Worker2 B2Loop, Recv =>
      match chan_recv (stage2Chan b) with
      | Some (r, q) =>
          Some (Worker2 (B2Send (processStage2_result r)), set_stage2Chan q b)
      | None => None
      end
  | Worker2 (B2Send r), Send =>
      match chan_send (stage3Chan b) r with
      | Some q => Some (Worker2 B2Loop, set_stage3Chan q b)
      | None => None
      end
  | Worker3 B3Loop, Recv =>
      match chan_recv (stage3Chan b) with
      | Some (r, q) => Some (Worker3 (B3Work r), set_stage3Chan q b)
      | None => None
      end
  | Worker3 (B3Work _), Measure => Some (Worker3 B3Loop, b)
  | _, _ => None
  end.

Record system : Type := mk_system {
  svc : brokenService;
  clock : Z;
  threads : list thread
}.

Inductive event : Type :=
| Tick (d : Z)
| CallStart                     (* s.Start() *)
| Request (id : Z)              (* HandleRequest up to and including its go statement *)
| Run (tid : nat) (ch : choice).

(** [Start]: 5, 3 and 2 workers. *)
Definition Start : list thread :=
  replicate 5 (Worker1 B1Loop) ++ replicate 3 (Worker2 B2Loop) ++
  replicate 2 (Worker3 B3Loop).

(** The job [HandleRequest] builds; it leaves the [ctx] field unset, and
    nothing in this service reads it. *)
Definition new_job (id now : Z) : job := mk_job id (request_data id) now 0%nat.

Definition step (s : system) (e : event) : option system :=
  match e with
  | Tick d =>
      if d <? 0 then None else Some (mk_system (svc s) (clock s + d) (threads s))
  | CallStart => Some (mk_system (svc s) (clock s) (threads s ++ Start))
  | Request id =>
      if id <? 0 then None
      else Some (mk_system (svc s) (clock s)
                   (threads s ++ [Handler (HSpawned id);
                                  Sender (GTrack (new_job id (clock s)))]))
  | Run tid ch =>
      match threads s !! tid with
      | None => None
      | Some t =>
          match thread_step ch t (svc s) (clock s) with
          | None => None
          | Some (t', b') =>
              Some (mk_system b' (clock s) (<[tid := t']> (threads s)))
          end
      end
  end.

Fixpoint run (s : system) (tr : list event) : option system :=
  match tr with
  | [] => Some s
  | e :: tr' =>
      match step s e with
      | Some s' => run s' tr'
      | None => None
      end
  end.

Definition boot (t0 : Z) : system := mk_system newBrokenService t0 [].

(** A request goroutine between its two [trackGoroutine] calls. *)
Definition alive (t : thread) : Z :=
  match t with
  | Sender (GSelect _ _) | Sender (GUntrack _) => 1
  | _ => 0
  end.

Definition answered (t : thread) : Z :=
  match t with
  | Handler (HAnswered 202 _ _) => 1
  | _ => 0
  end.

(** [k] requests, each answered, each with its goroutine started; the
    first of them gets goroutine number [base + 1]. *)
Fixpoint flood (base k : nat) : list event :=
  match k with
  | O => []
  | S k' =>
      Request 0 :: Run (base + 1) Track :: Run base Respond ::
      flood (base + 2) k'
  end.

(** The jobs built by [HandleRequest] along an execution. *)
Definition created_by (s : system) (e : event) : list job :=
  match e with
  | Request id => if id <? 0 then [] else [new_job id (clock s)]
  | _ => []
  end.

Fixpoint submitted (s : system) (tr : list event) : list job :=
  match tr with
  | [] => []
  | e :: tr' =>
      match step s e with
      | Some s' => created_by s e ++ submitted s' tr'
      | None => []
      end
  end.

(** The result stems from a submitted job and was stamped no earlier
    than that job was created, and not in the future. *)
Definition from_job (L : list job) (now : Z) (j : job) : Prop :=
  In j L /\ job_CreatedAt j <= now.

Definition restamped (L : list job) (now : Z) (r : stage1Result) : Prop :=
  exists j, In j L /\ JobID r = job_ID j /\
            job_CreatedAt j <= CreatedAt r <= now.

Definition carries (L : list job) (now : Z) (t : thread) : Prop :=
  match t with
  | Sender (GTrack j) | Sender (GSelect j _) => from_job L now j
  | Worker1 (B1Work j) => from_job L now j
  | Worker1 (B1Send j r) =>
      from_job L now j /\ JobID r = job_ID j /\
      job_CreatedAt j <= CreatedAt r <= now
  | Worker2 (B2Send r) | Worker3 (B3Work r) => restamped L now r
  | _ => True
  end.

Definition provenance (L : list job) (s : system) : Prop :=
  Forall (carries L (clock s)) (threads s) /\
  Forall (from_job L (clock s)) (buf (stage1Chan (svc s))) /\
  Forall (restamped L (clock s)) (buf (stage2Chan (svc s))) /\
  Forall (restamped L (clock s)) (buf (stage3Chan (svc s))).

Definition deadline_ok (now : Z) (t : thread) : Prop :=
  match t with
  | Sender (GSelect _ deadline) => deadline <= now + sendTimeout
  | _ => True
  end.


End Broken.
(** * Proofs *)

(** ** Traces *)

Lemma run_app (tr1 tr2 : list event) (s : system) :
  run s (tr1 ++ tr2) =
  match run s tr1 with Some s1 => run s1 tr2 | None => None end.
Proof.
  revert s. induction tr1 as [|e tr1 IH]; intros s; simpl; [reflexivity|].
  destruct (step s e); [apply IH | reflexivity].
Qed.

Lemma run_snoc (tr : list event) (e : event) (s s' : system) :
  run s (tr ++ [e]) = Some s' ->
  exists s1, run s tr = Some s1 /\ step s1 e = Some s'.
Proof.
  rewrite run_app. destruct (run s tr) as [s1|]; [|discriminate].
  simpl. destruct (step s1 e) as [s2|] eqn:E; [|discriminate].
  intros [= <-]. eauto.
Qed.

(** Induction on executions, one event at a time from the left end. *)
Lemma run_ind (s0 : system) (P : list event -> system -> Prop) :
  P [] s0 ->
  (forall tr s e s', run s0 tr = Some s -> P tr s -> step s e = Some s' ->
                     P (tr ++ [e]) s') ->
  forall tr s, run s0 tr = Some s -> P tr s.
Proof.
  intros H0 Hstep tr. induction tr as [|e tr IH] using rev_ind; intros s Hrun.
  - simpl in Hrun. injection Hrun as <-. exact H0.
  - apply run_snoc in Hrun as (s1 & Hrun & Hs). eauto.
Qed.

Lemma count_snoc (p : event -> bool) (tr : list event) (e : event) :
  count p (tr ++ [e]) = count p tr + (if p e then 1 else 0).
Proof.
  unfold count. rewrite filter_app, length_app. cbn.
  destruct (p e); cbn.
  - rewrite decide_True by reflexivity. cbn. lia.
  - rewrite decide_False by discriminate. cbn. lia.
Qed.

Lemma count_nonneg (p : event -> bool) (tr : list event) : 0 <= count p tr.
Proof. unfold count. lia. Qed.

(** ** Sums over the goroutine table *)

Lemma sumZ_app {A : Type} (f : A -> Z) (l1 l2 : list A) :
  sumZ f (l1 ++ l2) = sumZ f l1 + sumZ f l2.
Proof. induction l1 as [|x l1 IH]; simpl; [reflexivity | rewrite IH; lia]. Qed.

Lemma sumZ_insert {A : Type} (f : A -> Z) (l : list A) (i : nat) (x y : A) :
  l !! i = Some x -> sumZ f (<[i := y]> l) = sumZ f l - f x + f y.
Proof.
  revert i. induction l as [|a l IH]; intros [|i] H; simpl in *; try discriminate.
  - injection H as ->. lia.
  - rewrite (IH i H). lia.
Qed.

Lemma sumZ_replicate_0 {A : Type} (f : A -> Z) (n : nat) (x : A) :
  f x = 0 -> sumZ f (replicate n x) = 0.
Proof. intros Hx. induction n as [|n IH]; simpl; [reflexivity | lia]. Qed.

Lemma sumZ_nonneg {A : Type} (f : A -> Z) (l : list A) :
  (forall x, 0 <= f x) -> 0 <= sumZ f l.
Proof. intros Hf. induction l as [|a l IH]; simpl; [lia | specialize (Hf a); lia]. Qed.

Lemma sumZ_lookup_le {A : Type} (f : A -> Z) (l : list A) (i : nat) (x : A) :
  (forall y, 0 <= f y) -> l !! i = Some x -> f x <= sumZ f l.
Proof.
  intros Hf. revert i. induction l as [|a l IH]; intros [|i] H; simpl in *;
    try discriminate.
  - injection H as ->. pose proof (sumZ_nonneg f l Hf). lia.
  - specialize (IH i H). specialize (Hf a). lia.
Qed.

Lemma holds_nonneg (t : thread) : 0 <= holds t.
Proof. destruct t as [[]|[]|[]|[]]; simpl; lia. Qed.

Lemma sumZ_holds_Start (wc : workCoordinator) : sumZ holds (Start wc) = 0.
Proof.
  unfold Start. rewrite !sumZ_app, !sumZ_replicate_0 by reflexivity. reflexivity.
Qed.

(** ** The effect of one goroutine step on the token accounting *)

Ltac step_cases H :=
  repeat match type of H with
         | context [chan_send ?c ?x] =>
             let E := fresh "Esend" in
             unfold chan_send in H;
             destruct (Z.of_nat (length (buf c)) <? cap c) eqn:E
         | context [chan_recv ?c] =>
             let E := fresh "Erecv" in
             unfold chan_recv in H; destruct (buf c) eqn:E
         | context [if ?b then _ else _] =>
             let E := fresh "Eguard" in destruct b eqn:E
         | context [match ?p with (_, _) => _ end] => destruct p
         end;
  try discriminate H.

Lemma thread_step_tokens ch t wc now cs t' wc' :
  thread_step ch t wc now cs = Some (t', wc') ->
  chan_len (workSemaphore wc') = chan_len (workSemaphore wc) + acq_of ch - rel_of ch /\
  cap (workSemaphore wc') = cap (workSemaphore wc) /\
  holds t' + queued wc' + drop_of ch = holds t + queued wc + acq_of ch - rel_of ch /\
  (chan_len (workSemaphore wc) <= cap (workSemaphore wc) ->
   chan_len (workSemaphore wc') <= cap (workSemaphore wc')).
Proof.
  intros H.
  destruct t as [pc|pc|pc|pc]; destruct pc; destruct ch; simpl in H;
    try discriminate H; step_cases H;
    injection H as <- <-; unfold queued, chan_len in *; simpl;
    rewrite ?length_app, ?Erecv; simpl; repeat split; try lia.
Qed.

Lemma newWorkCoordinator_inv (n : Z) (wc : workCoordinator) :
  newWorkCoordinator n = Some wc ->
  0 <= n /\
  wc = mk_workCoordinator (mk_chan [] n) 5 3 2
         (mk_chan [] 5) (mk_chan [] 3) (mk_chan [] 2) 0 0 0 0 false.
Proof.
  unfold newWorkCoordinator, make_chan. destruct (n <? 0) eqn:E; [discriminate|].
  intros [= <-]. split; [lia | reflexivity].
Qed.

Lemma step_tokens (n : Z) (tr : list event) (s s' : system) (e : event) :
  token_inv n tr s -> step s e = Some s' -> token_inv n (tr ++ [e]) s'.
Proof.
  unfold token_inv, occupancy, in_flight, acquired, released, dropped.
  intros (Hocc & Hfl & Hcap & Hle) Hstep. rewrite !count_snoc.
  destruct e as [d|c| | |c data|tid ch]; simpl in Hstep.
  - destruct (d <? 0); [discriminate|]. injection Hstep as <-. simpl. lia.
  - injection Hstep as <-. simpl. lia.
  - injection Hstep as <-. simpl. rewrite sumZ_app, sumZ_holds_Start. lia.
  - injection Hstep as <-. simpl. unfold queued in *. simpl. lia.
  - injection Hstep as <-. simpl. rewrite sumZ_app. simpl. lia.
  - destruct (threads s !! tid) as [t|] eqn:Ht; [|discriminate].
    destruct (thread_step ch t (coord s) (clock s) (cancelled s))
      as [[t' wc']|] eqn:Hts; [|discriminate].
    injection Hstep as <-. cbn [coord threads].
    apply thread_step_tokens in Hts as (H1 & H2 & H3 & H4).
    rewrite (sumZ_insert holds _ _ t t' Ht).
    assert (Ha : (if is_acquire (Run tid ch) then 1 else 0) = acq_of ch)
      by (destruct ch; reflexivity).
    assert (Hr : (if is_release (Run tid ch) then 1 else 0) = rel_of ch)
      by (destruct ch; reflexivity).
    assert (Hd : (if is_abort (Run tid ch) then 1 else 0) = drop_of ch)
      by (destruct ch; reflexivity).
    rewrite Ha, Hr, Hd. repeat split; try lia.
Qed.

Lemma token_invariant (n t0 : Z) (wc0 : workCoordinator) (tr : list event)
    (s : system) :
  newWorkCoordinator n = Some wc0 ->
  run (boot wc0 t0) tr = Some s ->
  token_inv n tr s.
Proof.
  intros Hnew. apply newWorkCoordinator_inv in Hnew as [Hn ->].
  revert tr s. apply run_ind.
  - unfold token_inv, occupancy, in_flight, queued, chan_len; simpl.
    repeat split; try reflexivity; lia.
  - intros tr s e s' _ Hinv Hstep. eapply step_tokens; eassumption.
Qed.

Lemma launch_inv (n t0 : Z) (tr : list event) (s : system) :
  launch n t0 tr = Some s ->
  exists wc0, newWorkCoordinator n = Some wc0 /\ run (boot wc0 t0) tr = Some s.
Proof.
  unfold launch. destruct (newWorkCoordinator n) as [wc0|]; [eauto | discriminate].
Qed.

Lemma launch_tokens (n t0 : Z) (tr : list event) (s : system) :
  launch n t0 tr = Some s -> token_inv n tr s.
Proof.
  intros H. apply launch_inv in H as (wc0 & Hnew & Hrun).
  eapply token_invariant; eassumption.
Qed.

Lemma queued_nonneg (wc : workCoordinator) : 0 <= queued wc.
Proof. unfold queued, chan_len. lia. Qed.

Lemma in_flight_lookup (s : system) (tid : nat) (t : thread) :
  threads s !! tid = Some t -> holds t <= in_flight s.
Proof.
  intros Ht. unfold in_flight.
  pose proof (sumZ_lookup_le holds _ _ _ holds_nonneg Ht).
  pose proof (queued_nonneg (coord s)). lia.
Qed.

(** A goroutine standing at [<-wc.workSemaphore] always finds a token in
    the buffer: the receive is ready in every reachable state.  This is
    what makes the buffer-only reading of [chan_send] exact for the
    semaphore. *)
Lemma release_never_blocks (n t0 : Z) (tr : list event) (s : system)
    (tid : nat) (t : thread) :
  launch n t0 tr = Some s ->
  threads s !! tid = Some t ->
  (exists j err, t = Submitter (SRelease j err)) \/
  (exists j, t = Stage1 (W1Release j)) \/
  (exists r, t = Stage3 (W3Release r)) ->
  exists s', step s (Run tid Release) = Some s'.
Proof.
  intros Hl Ht Hpc. apply launch_tokens in Hl as (_ & Hfl & _ & _).
  pose proof (in_flight_lookup s tid t Ht) as Hh.
  pose proof (count_nonneg is_abort tr) as Hd. fold (dropped tr) in Hd.
  assert (H1 : holds t = 1)
    by (destruct Hpc as [(j & err & ->)|[(j & ->)|(r & ->)]]; reflexivity).
  assert (Hne : buf (workSemaphore (coord s)) <> []).
  { intros E. unfold occupancy, chan_len in Hfl. rewrite E in Hfl.
    simpl in Hfl. lia. }
  simpl. rewrite Ht.
  destruct (buf (workSemaphore (coord s))) as [|u b] eqn:E; [congruence|].
  destruct Hpc as [(j & err & ->)|[(j & ->)|(r & ->)]]; simpl;
    unfold chan_recv; rewrite E; eauto.
Qed.

(** ** C1: the admission bound *)

(** C1. For every execution on a coordinator built with maximum
    concurrency [n] -- any interleaving of SubmitJob calls, workers,
    cancellations, clock ticks, Start and Stop -- the number of tokens
    acquired and not yet released lies between 0 and [n], it is the
    fill level of the semaphore channel, the items in flight (states
    Admitted to InStage3) are at most [n], and a call standing at the gate
    can take the acquiring case only while fewer than [n] tokens are out. *)
Theorem admission_never_exceeds_max (n t0 : Z) (tr : list event) (s : system) :
  launch n t0 tr = Some s ->
  0 <= acquired tr - released tr <= n /\
  occupancy s = acquired tr - released tr /\
  in_flight s <= n /\
  (forall tid c data deadline s',
      threads s !! tid = Some (Submitter (SGate c data deadline)) ->
      step s (Run tid Acquire) = Some s' ->
      occupancy s < n /\ occupancy s' = occupancy s + 1).
Proof.
  intros Hl. apply launch_tokens in Hl as (Hocc & Hfl & Hcap & Hle).
  pose proof (count_nonneg is_abort tr) as Hd. fold (dropped tr) in Hd.
  assert (H0 : 0 <= occupancy s) by (unfold occupancy, chan_len; lia).
  split; [lia|]. split; [lia|]. split; [lia|].
  intros tid c data deadline s' Ht Hstep. simpl in Hstep. rewrite Ht in Hstep.
  simpl in Hstep. unfold chan_send in Hstep.
  destruct (Z.of_nat (length (buf (workSemaphore (coord s)))) <?
            cap (workSemaphore (coord s))) eqn:E; [|discriminate].
  injection Hstep as <-. unfold occupancy, chan_len in *. simpl.
  rewrite length_app. simpl. lia.
Qed.

Lemma admission_never_exceeds_max_witness :
  exists s, launch 1 0 one_admission = Some s /\ in_flight s <= 1 /\ occupancy s = 1.
Proof.
  eexists. split; [vm_compute; reflexivity|].
  match goal with
  | |- in_flight ?s <= _ /\ _ =>
      pose proof (admission_never_exceeds_max 1 0 one_admission s
                    ltac:(vm_compute; reflexivity)) as (_ & _ & H & _)
  end.
  split; [exact H | reflexivity].
Defined.

(** ** C3: token conservation *)

Lemma sumZ_holds_finished (l : list thread) :
  forallb finished l = true -> sumZ holds l = 0.
Proof.
  induction l as [|t l IH]; simpl; [reflexivity|].
  intros H. apply andb_prop in H as [Ht Hl]. rewrite (IH Hl).
  destruct t as [[]|[]|[]|[]]; simpl in *; try discriminate; reflexivity.
Qed.

(** C3, as stated, fails: after [Stop] and once every goroutine has
    left, one token has been acquired and none released.  The item was
    between stage 1 and stage 2 at shutdown and [processStage1] returned
    on [wc.ctx.Done()] without giving the token back. *)
Lemma stop_strands_token :
  exists s, launch 1 0 stop_in_flight = Some s /\
            ctx_done (coord s) = true /\
            drained s = true /\
            queued (coord s) = 0 /\
            acquired stop_in_flight = 1 /\
            released stop_in_flight = 0.
Proof.
  eexists. split; [vm_compute; reflexivity|].
  split; [reflexivity|]. split; [reflexivity|]. split; [reflexivity|].
  split; reflexivity.
Qed.

(** C3, amended. At every reachable state the acquisitions minus the
    releases count exactly the items that still hold a token: those in
    flight (carried by a goroutine or waiting in a stage queue) plus those
    a stage worker left behind on observing shutdown; no release happens
    without an earlier acquisition.  Once every goroutine has left, the
    acquisitions exceed the releases by the number of items stranded in the
    stage queues or left behind; they are equal exactly when there is none. *)
Theorem token_conservation (n t0 : Z) (tr : list event) (s : system) :
  launch n t0 tr = Some s ->
  acquired tr - released tr = in_flight s + dropped tr /\
  0 <= in_flight s /\ 0 <= dropped tr /\
  released tr <= acquired tr /\
  (drained s = true ->
   acquired tr = released tr + queued (coord s) + dropped tr /\
   (acquired tr = released tr <-> queued (coord s) = 0 /\ dropped tr = 0)).
Proof.
  intros Hl. apply launch_tokens in Hl as (Hocc & Hfl & _ & _).
  pose proof (count_nonneg is_abort tr) as Hd. fold (dropped tr) in Hd.
  pose proof (queued_nonneg (coord s)) as Hq.
  pose proof (sumZ_nonneg holds (threads s) holds_nonneg) as Hh.
  assert (Hin : 0 <= in_flight s) by (unfold in_flight; lia).
  split; [lia|]. split; [lia|]. split; [lia|]. split; [lia|].
  intros Hdr. unfold drained in Hdr. apply sumZ_holds_finished in Hdr.
  unfold in_flight in *. lia.
Qed.

Lemma token_conservation_witness :
  exists s, launch 1 0 stop_in_flight = Some s /\
            acquired stop_in_flight - released stop_in_flight =
            in_flight s + dropped stop_in_flight.
Proof.
  eexists. split; [vm_compute; reflexivity|].
  match goal with
  | |- _ = in_flight ?s + _ =>
      exact (proj1 (token_conservation 1 0 stop_in_flight s
                      ltac:(vm_compute; reflexivity)))
  end.
Defined.

(** ** C9: the average latency *)

Lemma wrap64_in_int64 (z : Z) : in_int64 (wrap64 z).
Proof.
  unfold in_int64, wrap64.
  pose proof (Z.mod_pos_bound (z + 2 ^ 63) (2 ^ 64) ltac:(lia)). lia.
Qed.

Lemma wrap64_id (z : Z) : in_int64 z -> wrap64 z = z.
Proof.
  unfold in_int64, wrap64. intros H.
  rewrite Z.mod_small by lia. lia.
Qed.

Lemma quot_in_int64 (a b : Z) : in_int64 a -> 0 < b -> in_int64 (Z.quot a b).
Proof.
  unfold in_int64. intros Ha Hb.
  destruct (Z.le_gt_cases 0 a) as [H0|H0].
  - pose proof (Z.quot_pos a b H0 Hb).
    assert (Z.quot a b <= a) by (apply Z.quot_le_upper_bound; nia).
    lia.
  - assert (Hq : Z.quot a b = - Z.quot (- a) b)
      by (rewrite Z.quot_opp_l by lia; lia).
    assert (0 <= Z.quot (- a) b) by (apply Z.quot_pos; lia).
    assert (Z.quot (- a) b <= - a) by (apply Z.quot_le_upper_bound; nia).
    lia.
Qed.

Lemma GetMetrics_total (wc : workCoordinator) :
  exists avg,
    GetMetrics wc = Some (activeJobs wc, completedJobs wc, rejectedJobs wc, avg) /\
    (completedJobs wc = 0 -> avg = 0) /\
    (0 < completedJobs wc ->
     avg = wrap64 (Z.quot (totalLatency wc) (completedJobs wc))).
Proof.
  unfold GetMetrics, go_div.
  destruct (completedJobs wc >? 0) eqn:E.
  - destruct (completedJobs wc =? 0) eqn:E0; [lia|].
    eexists. split; [reflexivity|]. split; [lia | reflexivity].
  - eexists. split; [reflexivity|]. split; [reflexivity | lia].
Qed.

Lemma thread_step_latency_range ch t wc now cs t' wc' :
  thread_step ch t wc now cs = Some (t', wc') ->
  in_int64 (totalLatency wc) -> in_int64 (totalLatency wc').
Proof.
  intros H Hr.
  destruct t as [pc|pc|pc|pc]; destruct pc; destruct ch; simpl in H;
    try discriminate H; step_cases H;
    injection H as <- <-; simpl; try assumption; apply wrap64_in_int64.
Qed.

Lemma latency_in_range (n t0 : Z) (tr : list event) (s : system) :
  launch n t0 tr = Some s -> in_int64 (totalLatency (coord s)).
Proof.
  intros H. apply launch_inv in H as (wc0 & Hnew & Hrun).
  apply newWorkCoordinator_inv in Hnew as [_ ->].
  revert tr s Hrun. apply run_ind.
  - simpl. unfold in_int64. lia.
  - intros tr s e s' _ IH Hstep.
    destruct e as [d|c| | |c data|tid ch]; simpl in Hstep.
    + destruct (d <? 0); [discriminate|]. injection Hstep as <-. exact IH.
    + injection Hstep as <-. exact IH.
    + injection Hstep as <-. exact IH.
    + injection Hstep as <-. exact IH.
    + injection Hstep as <-. exact IH.
    + destruct (threads s !! tid) as [t|]; [|discriminate].
      destruct (thread_step ch t (coord s) (clock s) (cancelled s))
        as [[t' wc']|] eqn:Hts; [|discriminate].
      injection Hstep as <-. simpl.
      eapply thread_step_latency_range; eassumption.
Qed.

(** C9. [GetMetrics] never panics on a division by zero: in every
    reachable state (indeed on every coordinator value) it returns; the
    average is zero whenever the completed count is zero, and it is the
    cumulative latency divided (truncating) by the completed count
    whenever that count is positive. *)
Theorem GetMetrics_never_divides_by_zero (n t0 : Z) (tr : list event)
    (s : system) :
  launch n t0 tr = Some s ->
  exists avg,
    GetMetrics (coord s) =
      Some (activeJobs (coord s), completedJobs (coord s),
            rejectedJobs (coord s), avg) /\
    (completedJobs (coord s) = 0 -> avg = 0) /\
    (0 < completedJobs (coord s) ->
     avg = Z.quot (totalLatency (coord s)) (completedJobs (coord s))).
Proof.
  intros Hl. apply latency_in_range in Hl.
  destruct (GetMetrics_total (coord s)) as (avg & Hg & H0 & Hpos).
  exists avg. split; [exact Hg|]. split; [exact H0|].
  intros Hc. rewrite (Hpos Hc). apply wrap64_id, quot_in_int64; assumption.
Qed.

Lemma GetMetrics_never_divides_by_zero_witness :
  exists s avg, launch 1 0 complete_one = Some s /\
    GetMetrics (coord s) = Some (0, 1, 0, avg) /\ avg = 350 * Millisecond.
Proof.
  destruct (launch 1 0 complete_one) as [s|] eqn:Hl;
    [|vm_compute in Hl; discriminate Hl].
  destruct (GetMetrics_never_divides_by_zero 1 0 complete_one s Hl)
    as (avg & Hg & _ & Hpos).
  exists s, avg. split; [reflexivity|].
  vm_compute in Hl. injection Hl as <-.
  split; [exact Hg|].
  rewrite Hpos by (vm_compute; reflexivity). vm_compute. reflexivity.
Defined.

(** ** C10: completion accounting *)

Lemma Start_threads (wc : workCoordinator) (t : thread) :
  t ∈ Start wc -> t = Stage1 W1Loop \/ t = Stage2 W2Loop \/ t = Stage3 W3Loop.
Proof.
  unfold Start. rewrite !elem_of_app, !elem_of_replicate. tauto.
Qed.

Lemma lookup_snoc_inv {A : Type} (l : list A) (x y : A) (i : nat) :
  (l ++ [x]) !! i = Some y -> l !! i = Some y \/ (i = length l /\ y = x).
Proof.
  intros H. apply lookup_app_Some in H as [H|[Hlen H]]; [left; exact H|].
  right. destruct (i - length l)%nat as [|k] eqn:E; simpl in H; [|discriminate].
  injection H as <-. split; [lia | reflexivity].
Qed.

Lemma lookup_app_None_l {A : Type} (l l' : list A) (i : nat) :
  (l ++ l') !! i = None -> l !! i = None.
Proof.
  intros H. destruct (l !! i) as [x|] eqn:E; [|reflexivity].
  rewrite (lookup_app_l_Some _ _ _ _ E) in H. discriminate H.
Qed.

Lemma lookup_Start_inv (l : list thread) (wc : workCoordinator) (t : thread)
    (i : nat) :
  (l ++ Start wc) !! i = Some t ->
  l !! i = Some t \/ t = Stage1 W1Loop \/ t = Stage2 W2Loop \/ t = Stage3 W3Loop.
Proof.
  intros H. apply lookup_app_Some in H as [H|[_ H]]; [left; exact H|].
  right. apply (Start_threads wc). eapply list_elem_of_lookup_2. exact H.
Qed.

(** What one goroutine step does to the completion metrics, and how a
    stage-3 worker moves from the release to [trackJobEnd]. *)
Lemma thread_step_completion ch t wc now cs t' wc' :
  thread_step ch t wc now cs = Some (t', wc') ->
  (match t, ch with
   | Stage3 (W3TrackEnd r latency), TrackEnd =>
       completedJobs wc' = wrap64 (completedJobs wc + 1) /\
       totalLatency wc' = wrap64 (totalLatency wc + latency) /\
       activeJobs wc' = wrap64 (activeJobs wc - 1) /\
       rejectedJobs wc' = rejectedJobs wc
   | _, TrackEnd =>
       completedJobs wc' = completedJobs wc /\
       totalLatency wc' = totalLatency wc /\
       activeJobs wc' = wrap64 (activeJobs wc - 1) /\
       rejectedJobs wc' = rejectedJobs wc
   | _, _ =>
       completedJobs wc' = completedJobs wc /\
       totalLatency wc' = totalLatency wc
   end) /\
  (forall r latency, t' = Stage3 (W3TrackEnd r latency) ->
     t = Stage3 (W3Measure r) /\ ch = Measure /\
     latency = time_Since now (CreatedAt r)) /\
  (forall r, t' = Stage3 (W3Measure r) ->
     t = Stage3 (W3Release r) /\ ch = Release).
Proof.
  intros H.
  destruct t as [pc|pc|pc|pc]; destruct pc; destruct ch; simpl in H;
    try discriminate H; step_cases H;
    injection H as <- <-; simpl; (split; [tauto|]);
    (split; [intros r0 l0 Hr | intros r0 Hr]);
    try discriminate Hr; injection Hr as <-; subst; tauto.
Qed.




(** ** C7: the configuration surface *)

Lemma configuration_of_new (n : Z) (wc : workCoordinator) :
  newWorkCoordinator n = Some wc ->
  configuration_of wc =
    mk_configuration n (5, 3, 2) (5, 3, 2) (100 * Millisecond) (1 * Second).
Proof. intros H. apply newWorkCoordinator_inv in H as [_ ->]. reflexivity. Qed.

(** C7, as stated, fails: no call of the constructor yields a
    coordinator with six stage-1 workers. *)
Lemma constructor_rejects_worker_count : ~ accepts_every_configuration.
Proof.
  intros H. destruct (H six_stage1_workers) as (n & wc & Hnew & Hcfg).
  - simpl. lia.
  - rewrite (configuration_of_new n wc Hnew) in Hcfg. discriminate Hcfg.
Qed.

(** C7, amended. The constructor accepts one configuration parameter,
    the maximum number of concurrent items: any non-negative value is
    accepted and becomes the capacity of the semaphore (a negative one
    panics).  The worker counts are fixed at 5, 3, 2, the queue capacities
    at 5, 3, 2, and the two waits of [SubmitJob] are armed with the fixed
    durations 100ms (admission) and 1s (stage-1 hand-off). *)
Theorem constructor_accepts_only_max_concurrency (n : Z) :
  (n < 0 -> newWorkCoordinator n = None) /\
  (0 <= n -> exists wc, newWorkCoordinator n = Some wc) /\
  (forall wc, newWorkCoordinator n = Some wc ->
     configuration_of wc =
       mk_configuration n (5, 3, 2) (5, 3, 2) (100 * Millisecond) (1 * Second) /\
     Start wc = replicate 5 (Stage1 W1Loop) ++ replicate 3 (Stage2 W2Loop) ++
                replicate 2 (Stage3 W3Loop)) /\
  (forall s c data,
     step s (CallSubmit c data) =
       Some (mk_system (coord s) (clock s) (cancelled s)
               (threads s ++ [Submitter (SGate c data (clock s + 100 * Millisecond))]))) /\
  (forall j wc now cs,
     SubmitJob TrackStart (SCreated j) wc now cs =
       Some (SHandoff j (now + 1 * Second), trackJobStart wc)).
Proof.
  split; [|split; [|split; [|split]]].
  - intros H. unfold newWorkCoordinator, make_chan.
    destruct (n <? 0) eqn:E; [reflexivity | lia].
  - intros H. unfold newWorkCoordinator, make_chan.
    destruct (n <? 0) eqn:E; [lia | eauto].
  - intros wc H. split; [apply configuration_of_new; exact H|].
    apply newWorkCoordinator_inv in H as [_ ->]. reflexivity.
  - reflexivity.
  - reflexivity.
Qed.

Lemma constructor_accepts_only_max_concurrency_witness :
  exists wc, newWorkCoordinator 50 = Some wc /\
    configuration_of wc =
      mk_configuration 50 (5, 3, 2) (5, 3, 2) (100 * Millisecond) (1 * Second).
Proof.
  destruct (constructor_accepts_only_max_concurrency 50) as (_ & Hex & Hcfg & _).
  destruct (Hex ltac:(lia)) as (wc & Hwc).
  exists wc. split; [exact Hwc | exact (proj1 (Hcfg wc Hwc))].
Defined.

(** ** C8: identifier and creation time travel unchanged *)

Lemma submitted_snoc (s0 s : system) (tr : list event) (e : event) :
  run s0 tr = Some s ->
  submitted s0 (tr ++ [e]) =
  submitted s0 tr ++ match step s e with Some _ => created_by s e | None => [] end.
Proof.
  revert s0. induction tr as [|a tr IH]; intros s0 Hrun; simpl in *.
  - injection Hrun as ->. destruct (step s e); simpl;
      [rewrite app_nil_r|]; reflexivity.
  - destruct (step s0 a) as [s1|]; [|discriminate].
    rewrite (IH s1 Hrun), app_assoc. reflexivity.
Qed.

Lemma carries_mono (L L' : list job) (t : thread) :
  carries L t -> carries (L ++ L') t.
Proof.
  destruct t as [[]|[]|[]|[]]; simpl; try tauto;
    unfold from_job, from_stage2; try (intros H; apply in_or_app; tauto);
    intros (j & Hj & ->); exists j; (split; [apply in_or_app; tauto | reflexivity]).
Qed.

Lemma queues_from_mono (L L' : list job) (wc : workCoordinator) :
  queues_from L wc -> queues_from (L ++ L') wc.
Proof.
  unfold queues_from. intros (H1 & H2 & H3). repeat split.
  - eapply Forall_impl; [exact H1|]. intros j Hj. apply in_or_app. tauto.
  - eapply Forall_impl; [exact H2|]. intros r (j & Hj & ->).
    exists j. split; [apply in_or_app; tauto | reflexivity].
  - eapply Forall_impl; [exact H3|]. intros r (j & Hj & ->).
    exists j. split; [apply in_or_app; tauto | reflexivity].
Qed.

Lemma thread_step_provenance (L : list job) ch t wc now cs t' wc' :
  thread_step ch t wc now cs = Some (t', wc') ->
  carries L t -> queues_from L wc ->
  let L' := L ++ match t, ch with
                 | Submitter (SAcquired c data), Create id =>
                     [mk_job id data now c]
                 | _, _ => []
                 end in
  carries L' t' /\ queues_from L' wc'.
Proof.
  intros H Ht (Hq1 & Hq2 & Hq3).
  destruct t as [pc|pc|pc|pc]; destruct pc; destruct ch; simpl in H;
    try discriminate H; step_cases H;
    injection H as <- <-; cbv zeta; rewrite ?app_nil_r;
    unfold queues_from; simpl in *;
    rewrite ?Erecv in *;
    repeat match goal with
           | H : Forall _ (_ :: _) |- _ => apply Forall_cons_1 in H as [? ?]
           end;
    repeat split; try assumption; try exact I;
    try (apply Forall_app; split; [assumption | apply Forall_singleton]);
    try assumption.
  - apply in_or_app. right. left. reflexivity.
  - eapply Forall_impl; [eassumption|]. intros j Hj. apply in_or_app. tauto.
  - eapply Forall_impl; [eassumption|]. intros r (j & Hj & ->).
    exists j. split; [apply in_or_app; tauto | reflexivity].
  - eapply Forall_impl; [eassumption|]. intros r (j & Hj & ->).
    exists j. split; [apply in_or_app; tauto | reflexivity].
  - exists j. split; [assumption | reflexivity].
  - match goal with H : from_stage1 _ _ |- _ => destruct H as (j & Hj & ->) end.
    exists j. split; [assumption | reflexivity].
Qed.

Lemma created_by_Run (s : system) (tid : nat) (ch : choice) (t : thread) :
  threads s !! tid = Some t ->
  created_by s (Run tid ch) =
  match t, ch with
  | Submitter (SAcquired c data), Create id => [mk_job id data (clock s) c]
  | _, _ => []
  end.
Proof.
  intros Ht. destruct ch; simpl; rewrite ?Ht;
    destruct t as [[]|[]|[]|[]]; reflexivity.
Qed.

Lemma step_provenance (L : list job) (s s' : system) (e : event) :
  provenance L s -> step s e = Some s' -> provenance (L ++ created_by s e) s'.
Proof.
  intros [Hth Hq] Hstep.
  destruct e as [d|c| | |c data|tid ch]; simpl in Hstep.
  - destruct (d <? 0); [discriminate|]. injection Hstep as <-.
    simpl. rewrite app_nil_r. split; assumption.
  - injection Hstep as <-. simpl. rewrite app_nil_r. split; assumption.
  - injection Hstep as <-. simpl. rewrite app_nil_r. split; [|assumption].
    simpl. apply Forall_app. split; [assumption|].
    apply Forall_forall. intros t Ht.
    apply (Start_threads (coord s)) in Ht as [->|[->| ->]]; exact I.
  - injection Hstep as <-. simpl. rewrite app_nil_r. split; assumption.
  - injection Hstep as <-. simpl. rewrite app_nil_r. split; [|assumption].
    simpl. apply Forall_app. split; [assumption|].
    apply Forall_singleton. exact I.
  - destruct (threads s !! tid) as [t|] eqn:Ht; [|discriminate].
    destruct (thread_step ch t (coord s) (clock s) (cancelled s))
      as [[t' wc']|] eqn:Hts; [|discriminate].
    injection Hstep as <-. rewrite (created_by_Run s tid ch t Ht).
    pose proof (Forall_lookup_1 _ _ _ _ Hth Ht) as Hc.
    destruct (thread_step_provenance L _ _ _ _ _ _ _ Hts Hc Hq) as [Hc' Hq'].
    split; simpl; [|exact Hq'].
    apply Forall_insert; [|exact Hc'].
    eapply Forall_impl; [exact Hth|]. intros x. apply carries_mono.
Qed.

Lemma provenance_invariant (n t0 : Z) (tr : list event) (s : system) :
  launch n t0 tr = Some s -> provenance (launch_submitted n t0 tr) s.
Proof.
  unfold launch, launch_submitted.
  destruct (newWorkCoordinator n) as [wc0|] eqn:Hnew; [|discriminate].
  apply newWorkCoordinator_inv in Hnew as [_ ->].
  revert tr s. apply run_ind.
  - repeat split; simpl; constructor.
  - intros tr s e s' Hrun IH Hstep.
    rewrite (submitted_snoc _ _ _ e Hrun), Hstep.
    eapply step_provenance; eassumption.
Qed.

(** C8. [processStage1] builds its result with the job's identifier and
    creation timestamp, stage number 1 and a new payload; [processStage2]
    keeps identifier and timestamp and replaces only payload and stage
    number.  Consequently, in every reachable state, every result queued
    for stage 2, and every result queued for or held by stage 2 and
    stage 3 -- in particular the one whose latency [processStage3] is about
    to measure -- carries the identifier and the creation timestamp of a
    job created by [SubmitJob] earlier in the execution. *)
Theorem stage_results_keep_id_and_timestamp (n t0 : Z) (tr : list event)
    (s : system) :
  launch n t0 tr = Some s ->
  (forall j,
      processStage1_result j =
        mk_stage1Result (job_ID j) (String.append "stage1-" (job_Data j)) 1
          (job_CreatedAt j)) /\
  (forall r,
      processStage2_result r =
        mk_stage1Result (JobID r) (String.append "stage2-" (Processed r)) 2
          (CreatedAt r)) /\
  (forall r, In r (buf (stage2Chan (coord s))) ->
      exists j, In j (launch_submitted n t0 tr) /\ same_item r j /\ Stage r = 1) /\
  (forall r,
      In r (buf (stage3Chan (coord s))) \/
      (exists tid, threads s !! tid = Some (Stage2 (W2Handoff r)) \/
                   threads s !! tid = Some (Stage3 (W3Release r)) \/
                   threads s !! tid = Some (Stage3 (W3Measure r)) \/
                   exists latency,
                     threads s !! tid = Some (Stage3 (W3TrackEnd r latency))) ->
      exists j, In j (launch_submitted n t0 tr) /\ same_item r j /\ Stage r = 2).
Proof.
  intros Hl. apply provenance_invariant in Hl as (Hth & Hq1 & Hq2 & Hq3).
  split; [reflexivity|]. split; [reflexivity|]. split.
  - intros r Hr. rewrite Forall_forall in Hq2.
    destruct (Hq2 r) as (j & Hj & ->); [apply list_elem_of_In; exact Hr|].
    exists j. repeat split. exact Hj.
  - intros r Hr.
    assert (H2 : from_stage2 (launch_submitted n t0 tr) r).
    { destruct Hr as [Hr|(tid & [Ht|[Ht|[Ht|[latency Ht]]]])].
      - rewrite Forall_forall in Hq3. apply Hq3, list_elem_of_In, Hr.
      - exact (Forall_lookup_1 _ _ _ _ Hth Ht).
      - exact (Forall_lookup_1 _ _ _ _ Hth Ht).
      - exact (Forall_lookup_1 _ _ _ _ Hth Ht).
      - exact (Forall_lookup_1 _ _ _ _ Hth Ht). }
    destruct H2 as (j & Hj & ->). exists j. repeat split. exact Hj.
Qed.

Lemma stage_results_keep_id_and_timestamp_witness :
  exists s r, launch 1 0 (removelast complete_one) = Some s /\
    threads s !! 8%nat = Some (Stage3 (W3TrackEnd r (350 * Millisecond))) /\
    exists j, In j (launch_submitted 1 0 (removelast complete_one)) /\
              same_item r j /\ Stage r = 2.
Proof.
  eexists. eexists. split; [vm_compute; reflexivity|]. split; [reflexivity|].
  eapply (proj2 (proj2 (proj2
    (stage_results_keep_id_and_timestamp 1 0 (removelast complete_one) _
       ltac:(vm_compute; reflexivity))))).
  right. exists 8%nat. right. right. right. eexists. reflexivity.
Defined.

(** ** C4: what a call of SubmitJob leaves behind *)

Lemma own_snoc (tid : nat) (p : choice -> bool) (tr : list event) (e : event) :
  own tid p (tr ++ [e]) = own tid p tr + (if by_thread tid p e then 1 else 0).
Proof. apply count_snoc. Qed.

Lemma ledger_of_snoc_other (tid : nat) (tr : list event) (e : event) :
  (forall ch, e <> Run tid ch) -> ledger_of tid (tr ++ [e]) = ledger_of tid tr.
Proof.
  intros Hne. unfold ledger_of. rewrite !own_snoc.
  assert (H : forall p, by_thread tid p e = false).
  { intros p. destruct e as [| | | | |t ch]; try reflexivity. simpl.
    destruct (Nat.eqb_spec t tid) as [->|]; [|reflexivity].
    exfalso. eapply Hne. reflexivity. }
  rewrite !H. f_equal; lia.
Qed.

Lemma ledger_of_snoc_own (tid : nat) (tr : list event) (ch : choice) :
  ledger_of tid (tr ++ [Run tid ch]) = ledger_add ch (ledger_of tid tr).
Proof.
  unfold ledger_of, ledger_add. rewrite !own_snoc. simpl.
  rewrite Nat.eqb_refl. reflexivity.
Qed.

Lemma SubmitJob_ledger ch pc wc now cs pc' wc' (l : ledger) :
  SubmitJob ch pc wc now cs = Some (pc', wc') ->
  ledger_at pc l -> ledger_at pc' (ledger_add ch l).
Proof.
  intros H Hl.
  destruct pc; destruct ch; simpl in H; try discriminate H; step_cases H;
    injection H as <- <-; simpl in Hl |- *;
    unfold gate_error, handoff_error in *;
    repeat match goal with
           | H : _ /\ _ |- _ => destruct H
           end; subst l; unfold ledger_add; simpl; tauto.
Qed.

Lemma thread_step_kind ch t wc now cs t' wc' :
  thread_step ch t wc now cs = Some (t', wc') ->
  match t, t' with
  | Submitter pc, Submitter pc' => SubmitJob ch pc wc now cs = Some (pc', wc')
  | Stage1 _, Stage1 _ | Stage2 _, Stage2 _ | Stage3 _, Stage3 _ => True
  | _, _ => False
  end.
Proof.
  destruct t as [pc|pc|pc|pc]; simpl.
  - destruct (SubmitJob ch pc wc now cs) as [[pc' w]|]; [|discriminate].
    intros [= <- <-]. reflexivity.
  - destruct (stage1Worker ch pc wc now cs) as [[pc' w]|]; [|discriminate].
    intros [= <- <-]. exact I.
  - destruct (stage2Worker ch pc wc) as [[pc' w]|]; [|discriminate].
    intros [= <- <-]. exact I.
  - destruct (stage3Worker ch pc wc now) as [[pc' w]|]; [|discriminate].
    intros [= <- <-]. exact I.
Qed.

Lemma step_ledger (tr : list event) (s s' : system) (e : event) :
  ledger_inv tr s -> step s e = Some s' -> ledger_inv (tr ++ [e]) s'.
Proof.
  intros Hinv Hstep tid. specialize (Hinv tid).
  destruct e as [d|c| | |c data|tid' ch]; simpl in Hstep.
  - destruct (d <? 0); [discriminate|]. injection Hstep as <-. simpl.
    rewrite ledger_of_snoc_other by discriminate. exact Hinv.
  - injection Hstep as <-. simpl.
    rewrite ledger_of_snoc_other by discriminate. exact Hinv.
  - injection Hstep as <-. simpl.
    rewrite ledger_of_snoc_other by discriminate.
    destruct ((threads s ++ Start (coord s)) !! tid) as [t|] eqn:E.
    + apply lookup_Start_inv in E as [E|[->|[->| ->]]]; try exact I.
      rewrite E in Hinv. exact Hinv.
    + apply lookup_app_None_l in E. rewrite E in Hinv. exact Hinv.
  - injection Hstep as <-. simpl.
    rewrite ledger_of_snoc_other by discriminate. exact Hinv.
  - injection Hstep as <-. simpl.
    rewrite ledger_of_snoc_other by discriminate.
    match goal with
    | |- match ?l !! tid with _ => _ end => destruct (l !! tid) as [t|] eqn:E
    end.
    + apply lookup_snoc_inv in E as [E|[-> ->]].
      * rewrite E in Hinv. exact Hinv.
      * rewrite (lookup_ge_None_2 (threads s) (length (threads s))) in Hinv
          by lia.
        simpl. exact Hinv.
    + apply lookup_app_None_l in E. rewrite E in Hinv. exact Hinv.
  - destruct (threads s !! tid') as [t|] eqn:Ht; [|discriminate].
    destruct (thread_step ch t (coord s) (clock s) (cancelled s))
      as [[t' wc']|] eqn:Hts; [|discriminate].
    injection Hstep as <-. simpl.
    destruct (decide (tid' = tid)) as [->|Hne].
    + rewrite list_lookup_insert_eq by (eapply lookup_lt_Some; eassumption).
      rewrite ledger_of_snoc_own. rewrite Ht in Hinv.
      apply thread_step_kind in Hts.
      destruct t as [pc|pc|pc|pc], t' as [pc'|pc'|pc'|pc']; try tauto.
      eapply SubmitJob_ledger; eassumption.
    + rewrite list_lookup_insert_ne by assumption.
      rewrite ledger_of_snoc_other by congruence. exact Hinv.
Qed.

Lemma ledger_invariant (n t0 : Z) (tr : list event) (s : system) :
  launch n t0 tr = Some s -> ledger_inv tr s.
Proof.
  intros H. apply launch_inv in H as (wc0 & _ & Hrun).
  revert tr s Hrun. apply run_ind.
  - intros tid. reflexivity.
  - intros tr s e s' _ IH Hstep. eapply step_ledger; eassumption.
Qed.

Lemma thread_step_active ch t wc now cs t' wc' :
  thread_step ch t wc now cs = Some (t', wc') ->
  activeJobs wc' =
    if ch_start ch then wrap64 (activeJobs wc + 1)
    else if ch_end ch then wrap64 (activeJobs wc - 1)
    else activeJobs wc.
Proof.
  intros H.
  destruct t as [pc|pc|pc|pc]; destruct pc; destruct ch; simpl in H;
    try discriminate H; step_cases H; injection H as <- <-; reflexivity.
Qed.

Lemma thread_step_returns_nil ch t wc now cs wc' :
  thread_step ch t wc now cs = Some (Submitter (SReturned None), wc') ->
  exists j deadline,
    t = Submitter (SHandoff j deadline) /\ ch = Send /\
    buf (stage1Chan wc') = buf (stage1Chan wc) ++ [j].
Proof.
  intros H.
  destruct t as [pc|pc|pc|pc]; destruct pc; destruct ch; simpl in H;
    try discriminate H; step_cases H; injection H as <-; eauto.
Qed.

(** C4. Take any execution and any call of [SubmitJob] in it that has
    returned.  If it returned an error, the call has received from the
    semaphore exactly as often as it has sent to it (at most once), has
    run [trackJobEnd] exactly as often as [trackJobStart], and has put
    nothing into stage 1: its own steps leave the occupancy of the
    semaphore and the active count where they found them.  If it returned
    nil, it has acquired one token, kept it, counted the job once and
    sent it to stage 1 -- and the return is the very step that appends
    the job to the stage-1 queue.  (Each step of a goroutine moves the
    occupancy by its acquire/release and the active count by its
    trackJobStart/trackJobEnd, and by nothing else.) *)
Theorem SubmitJob_error_releases_token (n t0 : Z) (tr : list event)
    (s : system) (tid : nat) (r : option string) :
  launch n t0 tr = Some s ->
  threads s !! tid = Some (Submitter (SReturned r)) ->
  match r with
  | Some err =>
      own tid ch_acquire tr = own tid ch_release tr /\
      own tid ch_acquire tr <= 1 /\
      own tid ch_start tr = own tid ch_end tr /\
      own tid ch_send tr = 0
  | None =>
      own tid ch_acquire tr = 1 /\ own tid ch_release tr = 0 /\
      own tid ch_start tr = 1 /\ own tid ch_end tr = 0 /\
      own tid ch_send tr = 1
  end /\
  (forall s1 s2 ch,
      step s1 (Run tid ch) = Some s2 ->
      occupancy s2 = occupancy s1 + (if ch_acquire ch then 1 else 0)
                                  - (if ch_release ch then 1 else 0) /\
      activeJobs (coord s2) =
        if ch_start ch then wrap64 (activeJobs (coord s1) + 1)
        else if ch_end ch then wrap64 (activeJobs (coord s1) - 1)
        else activeJobs (coord s1)) /\
  (forall s1 s2 e,
      step s1 e = Some s2 ->
      threads s2 !! tid = Some (Submitter (SReturned None)) ->
      threads s1 !! tid = Some (Submitter (SReturned None)) \/
      exists j deadline,
        threads s1 !! tid = Some (Submitter (SHandoff j deadline)) /\
        e = Run tid Send /\
        buf (stage1Chan (coord s2)) = buf (stage1Chan (coord s1)) ++ [j]).
Proof.
  intros Hl Ht. apply ledger_invariant in Hl. specialize (Hl tid).
  rewrite Ht in Hl. simpl in Hl. split; [|split].
  - destruct r as [err|].
    + destruct Hl as [[Hl _]|[Hl _]]; unfold ledger_of in Hl;
        injection Hl as H1 H2 H3 H4 H5 H6; repeat split; lia.
    + unfold ledger_of in Hl. injection Hl as H1 H2 H3 H4 H5 H6.
      repeat split; lia.
  - intros s1 s2 ch Hstep. simpl in Hstep.
    destruct (threads s1 !! tid) as [t|]; [|discriminate].
    destruct (thread_step ch t (coord s1) (clock s1) (cancelled s1))
      as [[t' wc']|] eqn:Hts; [|discriminate].
    injection Hstep as <-. unfold occupancy. cbn [coord].
    split.
    + apply thread_step_tokens in Hts as (H1 & _).
      rewrite H1. destruct ch; simpl; lia.
    + eapply thread_step_active; eassumption.
  - intros s1 s2 e Hstep H2.
    destruct e as [d|c| | |c data|tid' ch]; simpl in Hstep.
    + destruct (d <? 0); [discriminate|]. injection Hstep as <-. left. exact H2.
    + injection Hstep as <-. left. exact H2.
    + injection Hstep as <-. simpl in H2.
      apply lookup_Start_inv in H2 as [H2|[H2|[H2|H2]]];
        [left; exact H2 | discriminate..].
    + injection Hstep as <-. left. exact H2.
    + injection Hstep as <-. simpl in H2.
      apply lookup_snoc_inv in H2 as [H2|[_ H2]]; [left; exact H2 | discriminate].
    + destruct (threads s1 !! tid') as [t|] eqn:Ht1; [|discriminate].
      destruct (thread_step ch t (coord s1) (clock s1) (cancelled s1))
        as [[t' wc']|] eqn:Hts; [|discriminate].
      injection Hstep as <-. simpl in H2 |- *.
      destruct (decide (tid' = tid)) as [->|Hne].
      * rewrite list_lookup_insert_eq in H2
          by (eapply lookup_lt_Some; eassumption).
        injection H2 as ->.
        apply thread_step_returns_nil in Hts as (j & dl & -> & -> & Hq).
        right. exists j, dl. tauto.
      * rewrite list_lookup_insert_ne in H2 by assumption. left. exact H2.
Qed.

Lemma SubmitJob_error_releases_token_witness :
  exists s, launch 1 0 reject_at_gate = Some s /\
    threads s !! 1%nat = Some (Submitter (SReturned (Some err_capacity))) /\
    threads s !! 0%nat = Some (Submitter (SReturned None)) /\
    own 1 ch_acquire reject_at_gate = own 1 ch_release reject_at_gate /\
    own 0 ch_send reject_at_gate = 1.
Proof.
  eexists. split; [vm_compute; reflexivity|].
  split; [reflexivity|]. split; [reflexivity|].
  match goal with
  | |- _ = _ /\ _ => split
  end.
  - match goal with
    | |- own 1 _ ?tr = _ =>
        pose proof (SubmitJob_error_releases_token 1 0 tr _ 1%nat
                      (Some err_capacity)
                      ltac:(vm_compute; reflexivity) eq_refl) as ((H & _) & _)
    end.
    exact H.
  - reflexivity.
Defined.

(** ** C6: which rejections are counted *)

Lemma thread_step_rejected ch t wc now cs t' wc' :
  thread_step ch t wc now cs = Some (t', wc') ->
  rejectedJobs wc' =
    if ch_reject ch then wrap64 (rejectedJobs wc + 1) else rejectedJobs wc.
Proof.
  intros H.
  destruct t as [pc|pc|pc|pc]; destruct pc; destruct ch; simpl in H;
    try discriminate H; step_cases H; injection H as <- <-; reflexivity.
Qed.

(** C6, as stated, fails: the sixth call returns the stage-1 error
    after its one-second wait, and the rejected count reported by
    [GetMetrics], zero before the call, is still zero after it. *)
Lemma stage1_rejection_is_not_counted :
  exists s0 s,
    launch 6 0 (take 25 stage1_backed_up) = Some s0 /\
    GetMetrics (coord s0) = Some (5, 0, 0, 0) /\
    run s0 (drop 25 stage1_backed_up) = Some s /\
    threads s !! 5%nat = Some (Submitter (SReturned (Some err_backed_up))) /\
    GetMetrics (coord s) = Some (5, 0, 0, 0).
Proof.
  eexists. eexists. split; [vm_compute; reflexivity|].
  split; [reflexivity|]. split; [vm_compute; reflexivity|].
  split; reflexivity.
Qed.

(** C6, amended. The rejected count is the number of calls turned away
    at the gate.  A call that returned the capacity error has run
    [recordRejection] exactly once and never [trackJobEnd]; a call that
    returned the stage-1 error has never run [recordRejection]: it has
    given its token back and run [trackJobEnd(.., false)] once.  The
    rejected count moves only in a [recordRejection] step, by one. *)
Theorem only_gate_rejections_are_counted (n t0 : Z) (tr : list event)
    (s : system) (tid : nat) (err : string) :
  launch n t0 tr = Some s ->
  threads s !! tid = Some (Submitter (SReturned (Some err))) ->
  (err = err_capacity ->
   own tid ch_reject tr = 1 /\ own tid ch_end tr = 0) /\
  (err = err_backed_up ->
   own tid ch_reject tr = 0 /\ own tid ch_release tr = 1 /\
   own tid ch_end tr = 1) /\
  (forall s1 s2 e,
      step s1 e = Some s2 ->
      rejectedJobs (coord s2) =
        match e with
        | Run _ Reject => wrap64 (rejectedJobs (coord s1) + 1)
        | _ => rejectedJobs (coord s1)
        end).
Proof.
  intros Hl Ht. apply ledger_invariant in Hl. specialize (Hl tid).
  rewrite Ht in Hl. simpl in Hl. unfold ledger_of, gate_error, handoff_error in Hl.
  split; [|split].
  - intros ->. destruct Hl as [[Hl _]|[_ [He|He]]]; [|discriminate He..].
    injection Hl as _ _ _ H4 _ H6. split; assumption.
  - intros ->. destruct Hl as [[_ [He|He]]|[Hl _]]; [discriminate He..|].
    injection Hl as _ H2 _ H4 _ H6. repeat split; assumption.
  - intros s1 s2 e Hstep.
    destruct e as [d|c| | |c data|tid' ch]; simpl in Hstep.
    + destruct (d <? 0); [discriminate|]. injection Hstep as <-. reflexivity.
    + injection Hstep as <-. reflexivity.
    + injection Hstep as <-. reflexivity.
    + injection Hstep as <-. reflexivity.
    + injection Hstep as <-. reflexivity.
    + destruct (threads s1 !! tid') as [t|]; [|discriminate].
      destruct (thread_step ch t (coord s1) (clock s1) (cancelled s1))
        as [[t' wc']|] eqn:Hts; [|discriminate].
      injection Hstep as <-. cbn [coord].
      rewrite (thread_step_rejected _ _ _ _ _ _ _ Hts). destruct ch; reflexivity.
Qed.

Lemma only_gate_rejections_are_counted_witness :
  exists s, launch 6 0 stage1_backed_up = Some s /\
    own 5 ch_reject stage1_backed_up = 0 /\
    own 5 ch_release stage1_backed_up = 1 /\
    own 5 ch_end stage1_backed_up = 1.
Proof.
  eexists. split; [vm_compute; reflexivity|].
  match goal with
  | |- own 5 _ ?tr = _ /\ _ =>
      exact (proj1 (proj2 (only_gate_rejections_are_counted 6 0 tr _ 5%nat
                             err_backed_up
                             ltac:(vm_compute; reflexivity) eq_refl)) eq_refl)
  end.
Defined.

(** ** C2: cancellation beyond stage 1 *)

(** No select of stage 2 or stage 3 has a case for an item's context, and
    what these workers do does not depend on which contexts are done. *)
Lemma later_stages_ignore_contexts (s : system) (tid : nat) (t : thread) :
  threads s !! tid = Some t ->
  (exists pc, t = Stage2 pc) \/ (exists pc, t = Stage3 pc) ->
  step s (Run tid CtxDone) = None /\
  (forall ch cs,
      thread_step ch t (coord s) (clock s) cs =
      thread_step ch t (coord s) (clock s) (cancelled s)).
Proof.
  intros Ht [[pc ->]|[pc ->]]; simpl; rewrite Ht; simpl.
  - split; [destruct pc; reflexivity | reflexivity].
  - split; [destruct pc; reflexivity | reflexivity].
Qed.

(** C2 on the code: the item's context is cancelled while the item sits
    in the stage-2 queue.  No goroutine can then take a cancellation case
    or release the token; the stage-2 worker that picks the item up has no
    cancellation case either; the item goes through stage 3 and is counted
    as completed. *)
Theorem cancellation_in_stage2_is_ignored :
  exists s1 s2 s3 r,
    launch 1 0 cancel_in_stage2_queue = Some s1 /\
    buf (stage2Chan (coord s1)) = [r] /\ JobID r = 7 /\
    ctx_Done (cancelled s1) 0%nat = true /\
    (forall tid, step s1 (Run tid CtxDone) = None) /\
    (forall tid, step s1 (Run tid Release) = None) /\
    step s1 (Run 5 Recv) = Some s2 /\
    threads s2 !! 5%nat = Some (Stage2 (W2Handoff (processStage2_result r))) /\
    (forall tid, step s2 (Run tid CtxDone) = None) /\
    run s1 after_cancel_in_stage2 = Some s3 /\
    GetMetrics (coord s3) = Some (0, 1, 0, 0).
Proof.
  eexists. eexists. eexists. eexists.
  split; [vm_compute; reflexivity|].
  split; [reflexivity|]. split; [reflexivity|]. split; [reflexivity|].
  split; [intros tid; do 11 (destruct tid as [|tid]; [reflexivity|]); reflexivity|].
  split; [intros tid; do 11 (destruct tid as [|tid]; [reflexivity|]); reflexivity|].
  split; [vm_compute; reflexivity|].
  split; [reflexivity|].
  split; [intros tid; do 11 (destruct tid as [|tid]; [reflexivity|]); reflexivity|].
  split; [vm_compute; reflexivity|].
  reflexivity.
Qed.

(** ** C5: what Stop reaches *)

(** C5, as stated, fails: after [Stop], and after every worker has
    left, a call of [SubmitJob] acquires a token, enqueues its job into
    stage 1 and returns nil. *)
Lemma submit_after_stop_is_accepted :
  exists s0 s,
    launch 1 0 (take 12 submit_after_stop) = Some s0 /\
    ctx_done (coord s0) = true /\ drained s0 = true /\
    run s0 (drop 12 submit_after_stop) = Some s /\
    threads s !! 10%nat = Some (Submitter (SReturned None)) /\
    buf (stage1Chan (coord s)) = [mk_job 7 "a" 0 0%nat] /\
    occupancy s = 1.
Proof.
  eexists. eexists. split; [vm_compute; reflexivity|].
  split; [reflexivity|]. split; [reflexivity|].
  split; [vm_compute; reflexivity|].
  split; [reflexivity|]. split; reflexivity.
Qed.

(** C5, amended. [Stop] does not gate [SubmitJob]: every step of a call
    is enabled after [Stop] exactly as before and does the same, so a call
    still admits and enqueues whenever the gate and the stage-1 queue have
    room.  A worker blocked in its loop on an empty stage queue can, once
    [Stop] has been called, take one step only, the exit of its loop, and
    that step is enabled; a worker that has exited takes no further step. *)
Theorem stop_ends_blocked_workers_only (s : system) (tid : nat) (t : thread) :
  threads s !! tid = Some t ->
  (forall ch pc now cs,
      t = Submitter pc ->
      SubmitJob ch pc (Stop (coord s)) now cs =
      match SubmitJob ch pc (coord s) now cs with
      | Some (pc', wc') => Some (pc', Stop wc')
      | None => None
      end) /\
  (at_loop t = true -> own_queue_empty t (coord s) = true ->
   ctx_done (coord s) = true ->
   step s (Run tid Exit) =
     Some (mk_system (coord s) (clock s) (cancelled s)
             (<[tid := exit_of t]> (threads s))) /\
   (forall ch s', step s (Run tid ch) = Some s' -> ch = Exit)) /\
  (exited t = true -> forall ch, step s (Run tid ch) = None).
Proof.
  intros Ht. split; [|split].
  - intros ch pc now cs ->.
    destruct pc; destruct ch; simpl; try reflexivity;
      repeat match goal with
             | |- context [chan_send ?c ?x] => destruct (chan_send c x)
             | |- context [chan_recv ?c] => destruct (chan_recv c) as [[? ?]|]
             | |- context [if ?b then _ else _] => destruct b
             end; reflexivity.
  - intros Hloop Hq Hdone. simpl. rewrite Ht.
    destruct t as [pc|pc|pc|pc]; destruct pc; try discriminate Hloop;
      simpl in Hq |- *; rewrite Hdone; (split; [reflexivity|]);
      intros ch s' Hs; destruct ch; try reflexivity; try discriminate Hs;
      unfold chan_recv in Hs;
      match type of Hq with
      | match ?b with _ => _ end = _ => destruct b
      end; discriminate.
  - intros Hex ch. simpl. rewrite Ht.
    destruct t as [pc|pc|pc|pc]; destruct pc; try discriminate Hex;
      destruct ch; reflexivity.
Qed.

Lemma stop_ends_blocked_workers_only_witness :
  exists s0 s1,
    launch 1 0 (take 2 submit_after_stop) = Some s0 /\
    step s0 (Run 3 Exit) = Some s1 /\
    threads s1 !! 3%nat = Some (Stage1 W1Exited) /\
    (forall ch s', step s0 (Run 3 ch) = Some s' -> ch = Exit).
Proof.
  eexists. eexists. split; [vm_compute; reflexivity|].
  match goal with
  | |- step ?s0 _ = _ /\ _ =>
      destruct (stop_ends_blocked_workers_only s0 3%nat (Stage1 W1Loop) eq_refl)
        as (_ & H & _);
      destruct (H eq_refl eq_refl eq_refl) as [Hexit Honly]
  end.
  split; [exact Hexit|]. split; [reflexivity | exact Honly].
Defined.

(** * Further properties of the coordinator *)

(** ** The queues stay within their capacities *)

Lemma thread_step_shape ch t wc now cs t' wc' :
  thread_step ch t wc now cs = Some (t', wc') -> shape_inv wc -> shape_inv wc'.
Proof.
  unfold shape_inv, chan_len. intros H (Hw & Hc & H1 & H2 & H3).
  injection Hc as Hc1 Hc2 Hc3.
  destruct t as [pc|pc|pc|pc]; destruct pc; destruct ch; simpl in H;
    try discriminate H; step_cases H;
    injection H as <- <-; simpl in *;
    rewrite ?length_app, ?Erecv in *; simpl in *;
    repeat split; try assumption; try congruence; try lia.
Qed.

Lemma step_shape (s s' : system) (e : event) :
  step s e = Some s' -> shape_inv (coord s) -> shape_inv (coord s').
Proof.
  intros Hstep IH.
  destruct e as [d|c| | |c data|tid ch]; simpl in Hstep.
  - destruct (d <? 0); [discriminate|]. injection Hstep as <-. exact IH.
  - injection Hstep as <-. exact IH.
  - injection Hstep as <-. exact IH.
  - injection Hstep as <-. exact IH.
  - injection Hstep as <-. exact IH.
  - destruct (threads s !! tid) as [t|]; [|discriminate].
    destruct (thread_step ch t (coord s) (clock s) (cancelled s))
      as [[t' wc']|] eqn:Hts; [|discriminate].
    injection Hstep as <-. simpl.
    eapply thread_step_shape; eassumption.
Qed.

Lemma shape_invariant (n t0 : Z) (tr : list event) (s : system) :
  launch n t0 tr = Some s -> shape_inv (coord s).
Proof.
  intros H. apply launch_inv in H as (wc0 & Hnew & Hrun).
  apply newWorkCoordinator_inv in Hnew as [_ ->].
  revert tr s Hrun. apply run_ind.
  - unfold shape_inv, chan_len; simpl. repeat split; lia.
  - intros tr s e s' _ IH Hstep. eapply step_shape; eassumption.
Qed.

(** In every reachable state the three stage queues hold at most 5, 3 and
    2 items, the capacities and worker counts set by the constructor. *)
Theorem stage_queues_stay_bounded (n t0 : Z) (tr : list event) (s : system) :
  launch n t0 tr = Some s ->
  chan_len (stage1Chan (coord s)) <= cap (stage1Chan (coord s)) /\
  chan_len (stage2Chan (coord s)) <= cap (stage2Chan (coord s)) /\
  chan_len (stage3Chan (coord s)) <= cap (stage3Chan (coord s)) /\
  shape_inv (coord s).
Proof.
  intros H. apply launch_inv in H as (wc0 & Hnew & Hrun).
  apply newWorkCoordinator_inv in Hnew as [_ ->].
  assert (Hinv : shape_inv (coord s)).
  { revert tr s Hrun. apply run_ind.
    - unfold shape_inv, chan_len; simpl. repeat split; lia.
    - intros tr s e s' _ IH Hstep. eapply step_shape; eassumption. }
  pose proof Hinv as (_ & Hc & H1 & H2 & H3). injection Hc as -> -> ->.
  tauto.
Qed.

Lemma stage_queues_stay_bounded_witness :
  exists s, launch 6 0 stage1_backed_up = Some s /\
            chan_len (stage1Chan (coord s)) = 5 /\ shape_inv (coord s).
Proof.
  eexists. split; [vm_compute; reflexivity|]. split; [reflexivity|].
  match goal with
  | |- shape_inv (coord ?s) =>
      exact (proj2 (proj2 (proj2 (stage_queues_stay_bounded 6 0 stage1_backed_up s
               ltac:(vm_compute; reflexivity)))))
  end.
Defined.

(** ** The active count follows the semaphore *)

Lemma wrap64_wrap64_add (a b : Z) : wrap64 (wrap64 a + b) = wrap64 (a + b).
Proof.
  unfold wrap64.
  replace ((a + 2 ^ 63) mod 2 ^ 64 - 2 ^ 63 + b + 2 ^ 63)
    with ((a + 2 ^ 63) mod 2 ^ 64 + b) by lia.
  replace (a + b + 2 ^ 63) with ((a + 2 ^ 63) + b) by lia.
  rewrite Zplus_mod_idemp_l. reflexivity.
Qed.

Lemma sumZ_le {A : Type} (f g : A -> Z) (l : list A) :
  (forall x, f x <= g x) -> sumZ f l <= sumZ g l.
Proof.
  intros H. induction l as [|a l IH]; simpl; [lia | specialize (H a); lia].
Qed.

Lemma pending_start_le_holds (t : thread) : pending_start t <= holds t.
Proof. destruct t as [[]|[]|[]|[]]; simpl; lia. Qed.

Lemma pending_end_nonneg (t : thread) : 0 <= pending_end t.
Proof. destruct t as [[]|[]|[]|[]]; simpl; lia. Qed.

Lemma thread_step_tracked ch t wc now cs t' wc' :
  thread_step ch t wc now cs = Some (t', wc') ->
  chan_len (workSemaphore wc') - pending_start t' + pending_end t' =
  chan_len (workSemaphore wc) - pending_start t + pending_end t
  + (if ch_start ch then 1 else 0) - (if ch_end ch then 1 else 0).
Proof.
  intros H.
  destruct t as [pc|pc|pc|pc]; destruct pc; destruct ch; simpl in H;
    try discriminate H; step_cases H;
    injection H as <- <-; unfold chan_len; simpl;
    rewrite ?length_app, ?Erecv; simpl; lia.
Qed.

Lemma sumZ_pending_Start (wc : workCoordinator) :
  sumZ pending_start (Start wc) = 0 /\ sumZ pending_end (Start wc) = 0.
Proof.
  unfold Start. rewrite !sumZ_app, !sumZ_replicate_0 by reflexivity. tauto.
Qed.

Lemma active_tracks (n t0 : Z) (tr : list event) (s : system) :
  launch n t0 tr = Some s -> activeJobs (coord s) = wrap64 (tracked s).
Proof.
  intros H. apply launch_inv in H as (wc0 & Hnew & Hrun).
  apply newWorkCoordinator_inv in Hnew as [_ ->].
  revert tr s Hrun. apply run_ind.
  - reflexivity.
  - intros tr s e s' _ IH Hstep. unfold tracked, occupancy in *.
    destruct e as [d|c| | |c data|tid ch]; simpl in Hstep.
    + destruct (d <? 0); [discriminate|]. injection Hstep as <-. exact IH.
    + injection Hstep as <-. exact IH.
    + injection Hstep as <-. simpl. rewrite !sumZ_app.
      destruct (sumZ_pending_Start (coord s)) as [-> ->].
      rewrite !Z.add_0_r. exact IH.
    + injection Hstep as <-. exact IH.
    + injection Hstep as <-. simpl. rewrite !sumZ_app. simpl.
      rewrite !Z.add_0_r. exact IH.
    + destruct (threads s !! tid) as [t|] eqn:Ht; [|discriminate].
      destruct (thread_step ch t (coord s) (clock s) (cancelled s))
        as [[t' wc']|] eqn:Hts; [|discriminate].
      injection Hstep as <-. cbn [coord threads].
      rewrite (thread_step_active _ _ _ _ _ _ _ Hts), IH.
      pose proof (thread_step_tracked _ _ _ _ _ _ _ Hts) as Hd.
      rewrite (sumZ_insert pending_start _ _ t t' Ht).
      rewrite (sumZ_insert pending_end _ _ t t' Ht).
      destruct (ch_start ch) eqn:Es; [|destruct (ch_end ch) eqn:Ee].
      * assert (ch_end ch = false) as Ee
          by (destruct ch; try discriminate Es; reflexivity).
        rewrite Ee in Hd. rewrite wrap64_wrap64_add. f_equal. lia.
      * change (?x - 1) with (x + -1). rewrite wrap64_wrap64_add. f_equal. lia.
      * f_equal. lia.
Qed.

(** The active count reported by [GetMetrics] is the number of tokens
    out, less the goroutines that hold a token not yet counted by
    [trackJobStart], plus those that gave theirs back and have not yet run
    [trackJobEnd] (as an [int64]).  That number is never negative, and it
    exceeds the maximum concurrency by at most the goroutines of the
    second kind; when no goroutine is in either window the active count
    is exactly the occupancy of the semaphore. *)
Theorem active_count_follows_semaphore (n t0 : Z) (tr : list event)
    (s : system) :
  launch n t0 tr = Some s ->
  activeJobs (coord s) = wrap64 (tracked s) /\
  0 <= tracked s <= n + sumZ pending_end (threads s) /\
  (n < 2 ^ 63 ->
   sumZ pending_start (threads s) = 0 -> sumZ pending_end (threads s) = 0 ->
   activeJobs (coord s) = occupancy s).
Proof.
  intros Hl. pose proof (active_tracks n t0 tr s Hl) as Ha.
  apply launch_tokens in Hl as (Hocc & Hfl & Hcap & Hle).
  pose proof (count_nonneg is_abort tr) as Hd. fold (dropped tr) in Hd.
  pose proof (queued_nonneg (coord s)) as Hq.
  pose proof (sumZ_le pending_start holds (threads s) pending_start_le_holds) as Hps.
  pose proof (sumZ_nonneg pending_end (threads s) pending_end_nonneg) as Hpe.
  pose proof (sumZ_nonneg pending_start (threads s)) as Hps0.
  assert (Hps1 : 0 <= sumZ pending_start (threads s)).
  { apply Hps0. intros t. destruct t as [[]|[]|[]|[]]; simpl; lia. }
  unfold in_flight in Hfl.
  split; [exact Ha|]. split; [unfold tracked; lia|].
  intros Hn H1 H2. rewrite Ha. unfold tracked. rewrite H1, H2.
  replace (occupancy s - 0 + 0) with (occupancy s) by lia.
  apply wrap64_id. unfold in_int64.
  assert (0 <= occupancy s) by (unfold occupancy, chan_len; lia). lia.
Qed.

Lemma active_count_follows_semaphore_witness :
  exists s, launch 6 0 stage1_backed_up = Some s /\
            activeJobs (coord s) = occupancy s /\ occupancy s = 5.
Proof.
  eexists. split; [vm_compute; reflexivity|].
  match goal with
  | |- activeJobs (coord ?s) = _ /\ _ =>
      split; [exact (proj2 (proj2 (active_count_follows_semaphore 6 0
                        stage1_backed_up s ltac:(vm_compute; reflexivity)))
                      ltac:(vm_compute; reflexivity) eq_refl eq_refl)
             | reflexivity]
  end.
Defined.

(** ** A call of SubmitJob never hangs *)

Lemma deadlines_invariant (n t0 : Z) (tr : list event) (s : system) :
  launch n t0 tr = Some s -> Forall (deadline_ok (clock s)) (threads s).
Proof.
  intros H. apply launch_inv in H as (wc0 & _ & Hrun).
  revert tr s Hrun. apply run_ind.
  - constructor.
  - intros tr s e s' _ IH Hstep.
    destruct e as [d|c| | |c data|tid ch]; simpl in Hstep.
    + destruct (d <? 0) eqn:Ed; [discriminate|]. injection Hstep as <-. simpl.
      eapply Forall_impl; [exact IH|].
      intros t Ht. destruct t as [[]|[]|[]|[]]; simpl in *; lia.
    + injection Hstep as <-. exact IH.
    + injection Hstep as <-. simpl. apply Forall_app. split; [exact IH|].
      apply Forall_forall. intros t Ht.
      apply (Start_threads (coord s)) in Ht as [->|[->| ->]]; exact I.
    + injection Hstep as <-. exact IH.
    + injection Hstep as <-. simpl. apply Forall_app. split; [exact IH|].
      apply Forall_singleton. simpl. lia.
    + destruct (threads s !! tid) as [t|] eqn:Ht; [|discriminate].
      destruct (thread_step ch t (coord s) (clock s) (cancelled s))
        as [[t' wc']|] eqn:Hts; [|discriminate].
      injection Hstep as <-. simpl.
      apply Forall_insert; [exact IH|].
      destruct t as [pc|pc|pc|pc]; destruct pc; destruct ch; simpl in Hts;
        try discriminate Hts; step_cases Hts;
        injection Hts as <- <-; simpl; try exact I; lia.
Qed.

Lemma semaphore_nonempty (n t0 : Z) (tr : list event) (s : system)
    (tid : nat) (t : thread) :
  launch n t0 tr = Some s -> threads s !! tid = Some t -> holds t = 1 ->
  buf (workSemaphore (coord s)) <> [].
Proof.
  intros Hl Ht H1. apply launch_tokens in Hl as (_ & Hfl & _ & _).
  pose proof (in_flight_lookup s tid t Ht) as Hh.
  pose proof (count_nonneg is_abort tr) as Hd. fold (dropped tr) in Hd.
  intros E. unfold occupancy, chan_len in Hfl. rewrite E in Hfl.
  simpl in Hfl. lia.
Qed.

(** A call of [SubmitJob] that has not returned is never stuck for
    good: at the gate one of its steps is ready after at most 100ms, at
    the stage-1 hand-off after at most one second, and at every other
    program point at once -- in particular the receive that gives the
    token back never blocks. *)
Theorem SubmitJob_never_hangs (n t0 : Z) (tr : list event) (s : system)
    (tid : nat) (pc : submit_pc) :
  launch n t0 tr = Some s ->
  threads s !! tid = Some (Submitter pc) ->
  (forall r, pc <> SReturned r) ->
  exists d ch s1 s2,
    0 <= d <= wait_bound pc /\
    step s (Tick d) = Some s1 /\
    step s1 (Run tid ch) = Some s2.
Proof.
  intros Hl Ht Hpc.
  pose proof (deadlines_invariant n t0 tr s Hl) as Hdl.
  pose proof (Forall_lookup_1 _ _ _ _ Hdl Ht) as Hd. simpl in Hd.
  assert (Hstep : forall d, 0 <= d ->
            step s (Tick d) =
            Some (mk_system (coord s) (clock s + d) (cancelled s) (threads s))).
  { intros d H0. simpl. destruct (d <? 0) eqn:E; [lia | reflexivity]. }
  destruct pc as [c data dl|err|c data|j|j dl|j err|j err|r].
  - exists (Z.max 0 (dl - clock s)), TimedOut. eexists. eexists.
    split; [cbn [wait_bound];
            unfold admissionTimeout, stage1HandoffTimeout, Millisecond, Second in *;
            lia|].
    split; [apply Hstep; lia|].
    simpl. rewrite Ht. simpl.
    destruct (dl <=? clock s + Z.max 0 (dl - clock s)) eqn:E; [reflexivity | lia].
  - exists 0, Reject. eexists. eexists.
    split; [simpl; lia|]. split; [apply Hstep; lia|].
    simpl. rewrite Ht. reflexivity.
  - exists 0, (Create 0). eexists. eexists.
    split; [simpl; lia|]. split; [apply Hstep; lia|].
    simpl. rewrite Ht. reflexivity.
  - exists 0, TrackStart. eexists. eexists.
    split; [simpl; lia|]. split; [apply Hstep; lia|].
    simpl. rewrite Ht. reflexivity.
  - exists (Z.max 0 (dl - clock s)), TimedOut. eexists. eexists.
    split; [cbn [wait_bound];
            unfold admissionTimeout, stage1HandoffTimeout, Millisecond, Second in *;
            lia|].
    split; [apply Hstep; lia|].
    simpl. rewrite Ht. simpl.
    destruct (dl <=? clock s + Z.max 0 (dl - clock s)) eqn:E; [reflexivity | lia].
  - pose proof (semaphore_nonempty n t0 tr s tid _ Hl Ht eq_refl) as Hne.
    exists 0, Release. eexists.
    destruct (buf (workSemaphore (coord s))) as [|u b] eqn:E; [congruence|].
    eexists. split; [simpl; lia|]. split; [apply Hstep; lia|].
    simpl. rewrite Ht. simpl. unfold chan_recv. rewrite E. reflexivity.
  - exists 0, TrackEnd. eexists. eexists.
    split; [simpl; lia|]. split; [apply Hstep; lia|].
    simpl. rewrite Ht. reflexivity.
  - exfalso. exact (Hpc r eq_refl).
Qed.

Lemma SubmitJob_never_hangs_witness :
  exists d ch s s1 s2,
    launch 1 0 (take 6 reject_at_gate) = Some s /\
    0 <= d <= 100 * Millisecond /\
    step s (Tick d) = Some s1 /\ step s1 (Run 1 ch) = Some s2.
Proof.
  destruct (launch 1 0 (take 6 reject_at_gate)) as [s|] eqn:Hl;
    [|vm_compute in Hl; discriminate Hl].
  destruct (SubmitJob_never_hangs 1 0 (take 6 reject_at_gate) s 1%nat
              (SGate 1%nat "b" (100 * Millisecond)) Hl)
    as (d & ch & s1 & s2 & Hd & H1 & H2).
  - vm_compute in Hl. injection Hl as <-. reflexivity.
  - intros r. discriminate.
  - exists d, ch, s, s1, s2. split; [reflexivity|]. split; [exact Hd|].
    split; assumption.
Defined.

(** ** Measured latencies *)

Lemma time_Since_bounds (t0 now c : Z) :
  stamp_ok t0 now c -> 0 <= time_Since now c <= now - t0.
Proof. unfold stamp_ok, time_Since. lia. Qed.

Lemma stamped_mono (t0 now now' : Z) (t : thread) :
  now <= now' -> stamped t0 now t -> stamped t0 now' t.
Proof.
  intros Hle. destruct t as [[]|[]|[]|[]]; simpl; unfold stamp_ok; lia.
Qed.

Lemma queues_stamped_mono (t0 now now' : Z) (wc : workCoordinator) :
  now <= now' -> queues_stamped t0 now wc -> queues_stamped t0 now' wc.
Proof.
  intros Hle (H1 & H2 & H3). unfold queues_stamped, stamp_ok in *.
  repeat split; (eapply Forall_impl; [eassumption|]); simpl; intros; lia.
Qed.

Lemma thread_step_stamped (t0 : Z) ch t wc now cs t' wc' :
  thread_step ch t wc now cs = Some (t', wc') ->
  t0 <= now -> stamped t0 now t -> queues_stamped t0 now wc ->
  stamped t0 now t' /\ queues_stamped t0 now wc'.
Proof.
  intros H Hnow Ht (Hq1 & Hq2 & Hq3).
  destruct t as [pc|pc|pc|pc]; destruct pc; destruct ch; simpl in H;
    try discriminate H; step_cases H;
    injection H as <- <-;
    unfold queues_stamped; simpl in *;
    rewrite ?Erecv in *;
    repeat match goal with
           | H : Forall _ (_ :: _) |- _ => apply Forall_cons_1 in H as [? ?]
           end;
    repeat split; try assumption; try exact I;
    try (apply Forall_app; split; [assumption | apply Forall_singleton]);
    try assumption; try (unfold stamp_ok in *; simpl; lia);
    match goal with
    | H : stamp_ok _ _ _ |- _ => pose proof (time_Since_bounds _ _ _ H); lia
    end.
Qed.

Lemma stamps_invariant (n t0 : Z) (tr : list event) (s : system) :
  launch n t0 tr = Some s -> stamps_inv t0 s.
Proof.
  intros H. apply launch_inv in H as (wc0 & Hnew & Hrun).
  apply newWorkCoordinator_inv in Hnew as [_ ->].
  revert tr s Hrun. apply run_ind.
  - split; [simpl; lia|]. split; [constructor|].
    repeat split; constructor.
  - intros tr s e s' _ (Hclk & Hth & Hq) Hstep.
    destruct e as [d|c| | |c data|tid ch]; simpl in Hstep.
    + destruct (d <? 0) eqn:Ed; [discriminate|]. injection Hstep as <-.
      split; [simpl; lia|]. simpl. split.
      * eapply Forall_impl; [exact Hth|]. intros t. apply stamped_mono. lia.
      * eapply queues_stamped_mono; [|exact Hq]. lia.
    + injection Hstep as <-. split; [exact Hclk|]. split; assumption.
    + injection Hstep as <-. split; [exact Hclk|]. split; [|exact Hq].
      simpl. apply Forall_app. split; [exact Hth|].
      apply Forall_forall. intros t Ht.
      apply (Start_threads (coord s)) in Ht as [->|[->| ->]]; exact I.
    + injection Hstep as <-. split; [exact Hclk|]. split; assumption.
    + injection Hstep as <-. split; [exact Hclk|]. split; [|exact Hq].
      simpl. apply Forall_app. split; [exact Hth|].
      apply Forall_singleton. exact I.
    + destruct (threads s !! tid) as [t|] eqn:Ht; [|discriminate].
      destruct (thread_step ch t (coord s) (clock s) (cancelled s))
        as [[t' wc']|] eqn:Hts; [|discriminate].
      injection Hstep as <-.
      pose proof (Forall_lookup_1 _ _ _ _ Hth Ht) as Hc.
      destruct (thread_step_stamped t0 _ _ _ _ _ _ _ Hts Hclk Hc Hq) as [Hc' Hq'].
      split; [exact Hclk|]. split; [|exact Hq'].
      simpl. apply Forall_insert; assumption.
Qed.

Lemma latencies_snoc (s0 s : system) (tr : list event) (e : event) :
  run s0 tr = Some s ->
  latencies s0 (tr ++ [e]) =
  latencies s0 tr ++ match step s e with Some _ => completed_by s e | None => [] end.
Proof.
  revert s0. induction tr as [|a tr IH]; intros s0 Hrun; simpl in *.
  - injection Hrun as ->. destruct (step s e); simpl;
      [rewrite app_nil_r|]; reflexivity.
  - destruct (step s0 a) as [s1|]; [|discriminate].
    rewrite (IH s1 Hrun), app_assoc. reflexivity.
Qed.

Lemma total_snoc (l : list Z) (x : Z) : total (l ++ [x]) = total l + x.
Proof. unfold total. rewrite sumZ_app. simpl. lia. Qed.

Lemma total_nonneg (b : Z) (l : list Z) :
  Forall (fun x => 0 <= x <= b) l -> 0 <= total l.
Proof.
  unfold total. induction 1 as [|x l Hx _ IH]; simpl; lia.
Qed.

Lemma step_completed_by (s s' : system) (e : event) :
  step s e = Some s' ->
  match completed_by s e with
  | [] => completedJobs (coord s') = completedJobs (coord s) /\
          totalLatency (coord s') = totalLatency (coord s)
  | [latency] =>
      completedJobs (coord s') = wrap64 (completedJobs (coord s) + 1) /\
      totalLatency (coord s') = wrap64 (totalLatency (coord s) + latency) /\
      exists tid r, threads s !! tid = Some (Stage3 (W3TrackEnd r latency))
  | _ => False
  end.
Proof.
  intros Hstep.
  destruct e as [d|c| | |c data|tid ch]; simpl in Hstep.
  - destruct (d <? 0); [discriminate|]. injection Hstep as <-. simpl. tauto.
  - injection Hstep as <-. simpl. tauto.
  - injection Hstep as <-. simpl. tauto.
  - injection Hstep as <-. simpl. tauto.
  - injection Hstep as <-. simpl. tauto.
  - destruct (threads s !! tid) as [t|] eqn:Ht; [|discriminate].
    destruct (thread_step ch t (coord s) (clock s) (cancelled s))
      as [[t' wc']|] eqn:Hts; [|discriminate].
    injection Hstep as <-. cbn [coord].
    apply thread_step_completion in Hts as [Hm _].
    destruct ch; simpl; rewrite ?Ht;
      destruct t as [pc|pc|pc|pc]; destruct pc; simpl; try tauto.
    destruct Hm as (H1 & H2 & _). split; [exact H1|]. split; [exact H2|].
    exists tid, r. exact Ht.
Qed.

Lemma measured_invariant (n t0 : Z) (tr : list event) (s : system) :
  launch n t0 tr = Some s ->
  let L := launch_latencies n t0 tr in
  completedJobs (coord s) = wrap64 (Z.of_nat (length L)) /\
  totalLatency (coord s) = wrap64 (total L) /\
  Forall (fun latency => 0 <= latency <= clock s - t0) L.
Proof.
  intros Hl L.
  subst L. unfold launch_latencies.
    pose proof Hl as Hl'. unfold launch in Hl'.
    destruct (newWorkCoordinator n) as [wc0|] eqn:Hnew; [|discriminate].
    assert (Hst : forall tr s, run (boot wc0 t0) tr = Some s -> stamps_inv t0 s).
    { intros tr1 s1 Hr. apply (stamps_invariant n t0 tr1).
      unfold launch. rewrite Hnew. exact Hr. }
    pose proof (newWorkCoordinator_inv _ _ Hnew) as [_ Hwc].
    clear Hl. revert tr s Hl'. apply run_ind.
    - subst wc0. simpl. repeat split. constructor.
    - intros tr s e s' Hrun (IH1 & IH2 & IH3) Hstep.
      rewrite (latencies_snoc _ _ _ e Hrun), Hstep.
      pose proof (step_completed_by s s' e Hstep) as Hc.
      assert (Hclk : clock s <= clock s').
      { destruct e as [d|c| | |c data|tid ch]; simpl in Hstep.
        - destruct (d <? 0) eqn:Ed; [discriminate|]. injection Hstep as <-.
          simpl. lia.
        - injection Hstep as <-. simpl. lia.
        - injection Hstep as <-. simpl. lia.
        - injection Hstep as <-. simpl. lia.
        - injection Hstep as <-. simpl. lia.
        - destruct (threads s !! tid) as [t|]; [|discriminate].
          destruct (thread_step ch t (coord s) (clock s) (cancelled s))
            as [[t' wc']|]; [|discriminate].
          injection Hstep as <-. simpl. lia. }
      assert (IH3' : Forall (fun latency => 0 <= latency <= clock s' - t0)
                       (latencies (boot wc0 t0) tr)).
      { eapply Forall_impl; [exact IH3|]. simpl. intros. lia. }
      destruct (completed_by s e) as [|latency [|? ?]].
      + rewrite app_nil_r. destruct Hc as [-> ->]. tauto.
      + destruct Hc as (-> & -> & tid & r & Ht).
        rewrite length_app, total_snoc. simpl.
        rewrite IH1, IH2, !wrap64_wrap64_add.
        split; [f_equal; lia|]. split; [reflexivity|].
        apply Forall_app. split; [exact IH3'|]. apply Forall_singleton.
        destruct (Hst tr s Hrun) as (_ & Hth & _).
        pose proof (Forall_lookup_1 _ _ _ _ Hth Ht) as [_ Hlat].
        simpl in Hlat. lia.
      + contradiction.
Qed.

(** The completed count is the number, and the cumulative latency the
    sum, of the latencies measured by [processStage3] (as [int64]s); every
    one of them is non-negative and no longer than the execution has
    lasted.  So, short of an overflow, [GetMetrics] reports a true,
    non-negative average. *)
Theorem metrics_sum_measured_latencies (n t0 : Z) (tr : list event)
    (s : system) :
  launch n t0 tr = Some s ->
  let L := launch_latencies n t0 tr in
  completedJobs (coord s) = wrap64 (Z.of_nat (length L)) /\
  totalLatency (coord s) = wrap64 (total L) /\
  Forall (fun latency => 0 <= latency <= clock s - t0) L /\
  (L <> [] -> Z.of_nat (length L) < 2 ^ 63 -> total L < 2 ^ 63 ->
   exists avg,
     GetMetrics (coord s) =
       Some (activeJobs (coord s), Z.of_nat (length L), rejectedJobs (coord s), avg) /\
     avg = Z.quot (total L) (Z.of_nat (length L)) /\ 0 <= avg).
Proof.
  intros Hl L.
  destruct (measured_invariant n t0 tr s Hl) as (H1 & H2 & H3). fold L in H1, H2, H3.
  split; [exact H1|]. split; [exact H2|]. split; [exact H3|].
  intros Hne Hlen Htot.
  assert (Hpos : 0 < Z.of_nat (length L)) by (destruct L; [congruence | simpl; lia]).
  assert (Htot0 : 0 <= total L) by (eapply total_nonneg; exact H3).
  unfold GetMetrics, go_div. rewrite H1, H2.
  rewrite (wrap64_id (Z.of_nat (length L))) by (unfold in_int64; lia).
  rewrite (wrap64_id (total L)) by (unfold in_int64; lia).
  destruct (Z.of_nat (length L) >? 0) eqn:E1; [|lia].
  destruct (Z.of_nat (length L) =? 0) eqn:E2; [lia|].
  eexists. split; [reflexivity|]. split.
  - apply wrap64_id, quot_in_int64; [unfold in_int64|]; lia.
  - rewrite wrap64_id by (apply quot_in_int64; [unfold in_int64|]; lia).
    apply Z.quot_pos; lia.
Qed.

Lemma metrics_sum_measured_latencies_witness :
  exists s, launch 1 0 complete_one = Some s /\
    launch_latencies 1 0 complete_one = [350 * Millisecond] /\
    totalLatency (coord s) = wrap64 (total (launch_latencies 1 0 complete_one)).
Proof.
  eexists. split; [vm_compute; reflexivity|]. split; [vm_compute; reflexivity|].
  match goal with
  | |- totalLatency (coord ?s) = _ =>
      exact (proj1 (proj2 (metrics_sum_measured_latencies 1 0 complete_one s
                             ltac:(vm_compute; reflexivity))))
  end.
Defined.

(** ** The pipeline does not deadlock *)

Lemma thread_step_ctx_done ch t wc now cs t' wc' :
  thread_step ch t wc now cs = Some (t', wc') ->
  ctx_done wc' = ctx_done wc /\
  (exited t' = true -> ctx_done wc = true).
Proof.
  intros H.
  destruct t as [pc|pc|pc|pc]; destruct pc; destruct ch; simpl in H;
    try discriminate H; step_cases H;
    injection H as <- <-; simpl; (split; [first [reflexivity | assumption]|]);
    intros Hx; try discriminate Hx; first [assumption | reflexivity].
Qed.

Lemma exited_only_after_Stop (n t0 : Z) (tr : list event) (s : system) :
  launch n t0 tr = Some s ->
  forall i t, threads s !! i = Some t -> exited t = true ->
              ctx_done (coord s) = true.
Proof.
  intros H. apply launch_inv in H as (wc0 & Hnew & Hrun).
  apply newWorkCoordinator_inv in Hnew as [_ ->].
  revert tr s Hrun.
  apply (run_ind _ (fun _ s => forall i t, threads s !! i = Some t ->
                                 exited t = true -> ctx_done (coord s) = true)).
  - intros i t Ht. simpl in Ht. discriminate.
  - intros tr s e s' _ IH Hstep i t Ht Hx.
    destruct e as [d|c| | |c data|tid ch]; simpl in Hstep.
    + destruct (d <? 0); [discriminate|]. injection Hstep as <-. eauto.
    + injection Hstep as <-. eauto.
    + injection Hstep as <-. simpl in *.
      apply lookup_Start_inv in Ht as [Ht|[->|[->| ->]]];
        [eauto | discriminate..].
    + injection Hstep as <-. reflexivity.
    + injection Hstep as <-. simpl in *.
      apply lookup_snoc_inv in Ht as [Ht|[_ ->]]; [eauto | discriminate].
    + destruct (threads s !! tid) as [t1|] eqn:Ht1; [|discriminate].
      destruct (thread_step ch t1 (coord s) (clock s) (cancelled s))
        as [[t' wc']|] eqn:Hts; [|discriminate].
      injection Hstep as <-. simpl in *.
      apply thread_step_ctx_done in Hts as [-> Hex].
      destruct (decide (tid = i)) as [->|Hne].
      * rewrite list_lookup_insert_eq in Ht
          by (eapply lookup_lt_Some; eassumption).
        injection Ht as ->. auto.
      * rewrite list_lookup_insert_ne in Ht by assumption. eauto.
Qed.

Lemma step_keeps_kind (s s' : system) (e : event) (i : nat) (t : thread) :
  step s e = Some s' -> threads s !! i = Some t ->
  exists t', threads s' !! i = Some t' /\ same_kind t t'.
Proof.
  intros Hstep Ht.
  assert (Hrefl : same_kind t t) by (destruct t; exact I).
  destruct e as [d|c| | |c data|tid ch]; simpl in Hstep.
  - destruct (d <? 0); [discriminate|]. injection Hstep as <-. eauto.
  - injection Hstep as <-. eauto.
  - injection Hstep as <-. simpl. exists t.
    split; [apply lookup_app_l_Some; exact Ht | exact Hrefl].
  - injection Hstep as <-. eauto.
  - injection Hstep as <-. simpl. exists t.
    split; [apply lookup_app_l_Some; exact Ht | exact Hrefl].
  - destruct (threads s !! tid) as [t1|] eqn:Ht1; [|discriminate].
    destruct (thread_step ch t1 (coord s) (clock s) (cancelled s))
      as [[t' wc']|] eqn:Hts; [|discriminate].
    injection Hstep as <-. simpl.
    destruct (decide (tid = i)) as [->|Hne].
    + rewrite list_lookup_insert_eq by (eapply lookup_lt_Some; eassumption).
      exists t'. split; [reflexivity|].
      rewrite Ht in Ht1. injection Ht1 as <-.
      apply thread_step_kind in Hts.
      destruct t, t'; simpl in *; tauto.
    + rewrite list_lookup_insert_ne by assumption. eauto.
Qed.

Lemma pools_after_Start (n t0 : Z) (tr : list event) (s : system) :
  launch n t0 tr = Some s -> In CallStart tr -> pools_present s.
Proof.
  intros Hl.
  assert (Hshape : forall tr s, launch n t0 tr = Some s -> shape_inv (coord s))
    by (intros; eapply shape_invariant; eassumption).
  unfold launch in *.
  destruct (newWorkCoordinator n) as [wc0|] eqn:Hnew; [|discriminate].
  revert tr s Hl.
  apply (run_ind _ (fun tr s => In CallStart tr -> pools_present s)).
  - intros [].
  - intros tr s e s' Hrun IH Hstep Hin.
    apply in_app_or in Hin as [Hin|[->|[]]].
    + destruct (IH Hin) as ((i1 & p1 & H1) & (i2 & p2 & H2) & (i3 & p3 & H3)).
      destruct (step_keeps_kind _ _ _ _ _ Hstep H1) as (t1 & Ht1 & K1).
      destruct (step_keeps_kind _ _ _ _ _ Hstep H2) as (t2 & Ht2 & K2).
      destruct (step_keeps_kind _ _ _ _ _ Hstep H3) as (t3 & Ht3 & K3).
      destruct t1 as [|q1| |]; try contradiction.
      destruct t2 as [| |q2|]; try contradiction.
      destruct t3 as [| | |q3]; try contradiction.
      unfold pools_present. eauto 10.
    + simpl in Hstep. injection Hstep as <-. simpl.
      destruct (Hshape tr s Hrun) as (Hw & _). injection Hw as Hw1 Hw2 Hw3.
      unfold Start. rewrite Hw1, Hw2, Hw3.
      split; [|split]; cbn [threads].
      * exists (length (threads s)), W1Loop.
        rewrite lookup_app_r by lia. rewrite Nat.sub_diag. reflexivity.
      * exists (length (threads s) + 5)%nat, W2Loop.
        rewrite lookup_app_r by lia.
        replace (length (threads s) + 5 - length (threads s))%nat with 5%nat by lia.
        reflexivity.
      * exists (length (threads s) + 8)%nat, W3Loop.
        rewrite lookup_app_r by lia.
        replace (length (threads s) + 8 - length (threads s))%nat with 8%nat by lia.
        reflexivity.
Qed.

Lemma find_thread (p : thread -> bool) (l : list thread) :
  (exists i t, l !! i = Some t /\ p t = true) \/
  (forall i t, l !! i = Some t -> p t = false).
Proof.
  induction l as [|a l IH].
  - right. intros i t H. rewrite lookup_nil in H. discriminate.
  - destruct (p a) eqn:Ea.
    + left. exists 0%nat, a. split; [reflexivity | exact Ea].
    + destruct IH as [(i & t & Hi & Hp)|Hno].
      * left. exists (S i), t. split; assumption.
      * right. intros [|i] t H; simpl in H.
        -- injection H as <-. exact Ea.
        -- eapply Hno. exact H.
Qed.

Lemma finishing_can_step (n t0 : Z) (tr : list event) (s : system)
    (tid : nat) (t : thread) :
  launch n t0 tr = Some s -> threads s !! tid = Some t -> finishing t = true ->
  exists ch s', step s (Run tid ch) = Some s'.
Proof.
  intros Hl Ht Hf.
  destruct t as [pc|pc|pc|pc]; destruct pc; try discriminate Hf.
  - destruct (release_never_blocks n t0 tr s tid _ Hl Ht) as (s' & Hs); [eauto|].
    eauto.
  - exists TrackEnd. simpl. rewrite Ht. simpl. eauto.
  - destruct (release_never_blocks n t0 tr s tid _ Hl Ht) as (s' & Hs); [eauto|].
    eauto.
  - exists Measure. simpl. rewrite Ht. simpl. eauto.
  - exists TrackEnd. simpl. rewrite Ht. simpl. eauto.
Qed.

Lemma running_workers_can_step (n t0 : Z) (tr : list event) (s : system) :
  launch n t0 tr = Some s ->
  In CallStart tr ->
  ctx_done (coord s) = false ->
  0 < queued (coord s) \/
  (exists i t, threads s !! i = Some t /\ busy t = true) ->
  exists tid t ch s',
    threads s !! tid = Some t /\ is_worker t = true /\
    step s (Run tid ch) = Some s'.
Proof.
  intros Hl Hstart.
  pose proof (shape_invariant n t0 tr s Hl) as (_ & Hcaps & _).
  injection Hcaps as Hc1 Hc2 Hc3.
  intros Hrun Hwork.
  assert (Hnoexit : forall i t, threads s !! i = Some t -> exited t = false).
  { intros i t Ht. destruct (exited t) eqn:E; [|reflexivity].
    rewrite (exited_only_after_Stop n t0 tr s Hl i t Ht E) in Hrun.
    discriminate. }
  destruct (pools_after_Start n t0 tr s Hl Hstart)
    as ((i1 & p1 & H1) & (i2 & p2 & H2) & (i3 & p3 & H3)).
  (* a worker past its select can always go on *)
  destruct (find_thread finishing (threads s)) as [(i & t & Ht & Hf)|Hnf].
  { destruct (finishing_can_step n t0 tr s i t Hl Ht Hf) as (ch & s' & Hs).
    exists i, t, ch, s'. split; [exact Ht|]. split; [|exact Hs].
    destruct t as [pc|pc|pc|pc]; try reflexivity; discriminate Hf. }
  (* stage 3: its workers stand at their loop *)
  destruct (buf (stage3Chan (coord s))) as [|r3 q3] eqn:E3.
  2:{ assert (p3 = W3Loop) as ->.
      { pose proof (Hnf _ _ H3) as Hf. pose proof (Hnoexit _ _ H3) as Hx.
        destruct p3; try discriminate; reflexivity. }
      exists i3, (Stage3 W3Loop), Recv. eexists.
      split; [exact H3|]. split; [reflexivity|].
      simpl. rewrite H3. simpl. unfold chan_recv. rewrite E3. reflexivity. }
  (* stage 2: a hand-off finds room in the empty stage-3 queue *)
  destruct (find_thread (fun t => match t with Stage2 (W2Handoff _) => true
                                            | _ => false end) (threads s))
    as [(i & t & Ht & Hf)|Hn2].
  { destruct t as [|?|[|r|]|?]; try discriminate Hf.
    exists i, (Stage2 (W2Handoff r)), Send. eexists.
    split; [exact Ht|]. split; [reflexivity|].
    simpl. rewrite Ht. simpl. unfold chan_send. rewrite E3, Hc3. simpl.
    reflexivity. }
  destruct (buf (stage2Chan (coord s))) as [|r2 q2] eqn:E2.
  2:{ assert (p2 = W2Loop) as ->.
      { pose proof (Hn2 _ _ H2) as Hf. pose proof (Hnoexit _ _ H2) as Hx.
        destruct p2; try discriminate; reflexivity. }
      exists i2, (Stage2 W2Loop), Recv. eexists.
      split; [exact H2|]. split; [reflexivity|].
      simpl. rewrite H2. simpl. unfold chan_recv. rewrite E2. reflexivity. }
  (* stage 1: likewise *)
  destruct (find_thread (fun t => match t with Stage1 (W1Handoff _) => true
                                            | _ => false end) (threads s))
    as [(i & t & Ht & Hf)|Hn1].
  { destruct t as [|[|j| | |]|?|?]; try discriminate Hf.
    exists i, (Stage1 (W1Handoff j)), Send. eexists.
    split; [exact Ht|]. split; [reflexivity|].
    simpl. rewrite Ht. simpl. unfold chan_send. rewrite E2, Hc2. simpl.
    reflexivity. }
  destruct (buf (stage1Chan (coord s))) as [|j1 q1] eqn:E1.
  2:{ assert (p1 = W1Loop) as ->.
      { pose proof (Hnf _ _ H1) as Hf. pose proof (Hn1 _ _ H1) as Hh.
        pose proof (Hnoexit _ _ H1) as Hx.
        destruct p1; try discriminate; reflexivity. }
      exists i1, (Stage1 W1Loop), Recv. eexists.
      split; [exact H1|]. split; [reflexivity|].
      simpl. rewrite H1. simpl. unfold chan_recv. rewrite E1. reflexivity. }
  (* nothing queued, nothing carried: there was no work *)
  exfalso. destruct Hwork as [Hq|(i & t & Ht & Hb)].
  + unfold queued, chan_len in Hq. rewrite E1, E2, E3 in Hq. simpl in Hq. lia.
  + pose proof (Hnf _ _ Ht) as Hf. pose proof (Hn2 _ _ Ht) as Hh2.
    pose proof (Hn1 _ _ Ht) as Hh1.
    destruct t as [pc|pc|pc|pc]; destruct pc; discriminate.
Qed.

Lemma stopped_workers_can_step (n t0 : Z) (tr : list event) (s : system) :
  launch n t0 tr = Some s ->
  ctx_done (coord s) = true ->
  forall tid t,
    threads s !! tid = Some t -> is_worker t = true -> exited t = false ->
    exists ch s', step s (Run tid ch) = Some s'.
Proof.
  intros Hl.
  intros Hdone tid t Ht Hw Hx.
  destruct (finishing t) eqn:Hf.
  { eapply finishing_can_step; eassumption. }
  destruct t as [pc|pc|pc|pc]; destruct pc; try discriminate.
  + exists Exit. simpl. rewrite Ht. simpl. rewrite Hdone. eauto.
  + exists Abort. simpl. rewrite Ht. simpl. rewrite Hdone. eauto.
  + exists Exit. simpl. rewrite Ht. simpl. rewrite Hdone. eauto.
  + exists Abort. simpl. rewrite Ht. simpl. rewrite Hdone. eauto.
  + exists Exit. simpl. rewrite Ht. simpl. rewrite Hdone. eauto.
Qed.

(** Once [Start] has been called and as long as [Stop] has not, the
    pipeline cannot deadlock: whenever an item waits in a stage queue or a
    worker carries one, some worker has a step it can take.  After
    [Stop], every worker that has not exited has a step it can take. *)
Theorem pipeline_never_deadlocks (n t0 : Z) (tr : list event) (s : system) :
  launch n t0 tr = Some s ->
  In CallStart tr ->
  (ctx_done (coord s) = false ->
   0 < queued (coord s) \/
   (exists i t, threads s !! i = Some t /\ busy t = true) ->
   exists tid t ch s',
     threads s !! tid = Some t /\ is_worker t = true /\
     step s (Run tid ch) = Some s') /\
  (ctx_done (coord s) = true ->
   forall tid t,
     threads s !! tid = Some t -> is_worker t = true -> exited t = false ->
     exists ch s', step s (Run tid ch) = Some s').
Proof.
  intros Hl Hstart. split.
  - intros Hrun Hwork. eapply running_workers_can_step; eassumption.
  - intros Hdone tid t Ht Hw Hx. eapply stopped_workers_can_step; eassumption.
Qed.

Lemma pipeline_never_deadlocks_witness :
  exists s tid t ch s',
    launch 1 0 (take 6 complete_one) = Some s /\
    queued (coord s) = 1 /\
    threads s !! tid = Some t /\ is_worker t = true /\
    step s (Run tid ch) = Some s'.
Proof.
  destruct (launch 1 0 (take 6 complete_one)) as [s|] eqn:Hl;
    [|vm_compute in Hl; discriminate Hl].
  assert (Hq : queued (coord s) = 1)
    by (vm_compute in Hl; injection Hl as <-; reflexivity).
  assert (Hd : ctx_done (coord s) = false)
    by (vm_compute in Hl; injection Hl as <-; reflexivity).
  destruct (pipeline_never_deadlocks 1 0 (take 6 complete_one) s Hl) as [Hgo _].
  - left. reflexivity.
  - destruct (Hgo Hd) as (tid & t & ch & s' & Ht & Hw & Hs).
    + left. lia.
    + exists s, tid, t, ch, s'. tauto.
Defined.

(** * The service *)

(** ** Service executions are coordinator executions *)

Lemma service_run_app (tr1 tr2 : list service_event) (sv : service) :
  service_run sv (tr1 ++ tr2) =
  match service_run sv tr1 with Some sv1 => service_run sv1 tr2 | None => None end.
Proof.
  revert sv. induction tr1 as [|e tr1 IH]; intros sv; simpl; [reflexivity|].
  destruct (service_step sv e); [apply IH | reflexivity].
Qed.

Lemma service_run_ind (sv0 : service) (P : list service_event -> service -> Prop) :
  P [] sv0 ->
  (forall tr sv e sv', service_run sv0 tr = Some sv -> P tr sv ->
                       service_step sv e = Some sv' -> P (tr ++ [e]) sv') ->
  forall tr sv, service_run sv0 tr = Some sv -> P tr sv.
Proof.
  intros H0 Hstep tr. induction tr as [|e tr IH] using rev_ind; intros sv Hrun.
  - simpl in Hrun. injection Hrun as <-. exact H0.
  - rewrite service_run_app in Hrun.
    destruct (service_run sv0 tr) as [sv1|] eqn:E1; [|discriminate].
    simpl in Hrun. destruct (service_step sv1 e) as [sv2|] eqn:E2; [|discriminate].
    injection Hrun as <-. eauto.
Qed.

(** Each service step is at most one step of the coordinator's machine,
    never [Stop] and never a call of [SubmitJob] other than the one
    [HandleRequest] makes. *)
Lemma service_step_machine (sv sv' : service) (e : service_event) :
  service_step sv e = Some sv' ->
  run (machine sv) (project (length (requests sv)) [e]) = Some (machine sv') /\
  length (requests sv') =
    (length (requests sv) + match e with Request _ => 1 | _ => 0 end)%nat /\
  ~ In CallStop (project (length (requests sv)) [e]).
Proof.
  intros H. destruct e as [e'|rnd|i|i|i]; simpl in H |- *.
  - destruct e' as [d|c| | |c data|tid ch]; try discriminate H;
      match type of H with
      | match ?x with _ => _ end = _ => destruct x as [m|] eqn:E; [|discriminate H]
      end; injection H as <-; simpl;
      (split; [reflexivity|]); (split; [lia|]); intros [Hc|[]]; discriminate Hc.
  - destruct (rnd <? 0); [discriminate|]. injection H as <-. simpl.
    split; [reflexivity|]. split; [rewrite length_app; simpl; lia|].
    intros [Hc|[]]; discriminate Hc.
  - destruct (requests sv !! i) as [rq|]; [|discriminate].
    destruct (rq_deadline rq <=? clock (machine sv)); [|discriminate].
    injection H as <-. simpl.
    split; [reflexivity|]. split; [lia|]. intros [Hc|[]]; discriminate Hc.
  - destruct (requests sv !! i) as [rq|]; [|discriminate].
    destruct (rq_pc rq); try discriminate.
    destruct (threads (machine sv) !! rq_call rq) as [[[]| | |]|]; try discriminate.
    destruct (response r) as [st body]. injection H as <-. simpl.
    split; [reflexivity|]. split; [rewrite length_insert; lia|]. tauto.
  - destruct (requests sv !! i) as [rq|]; [|discriminate].
    destruct (rq_pc rq); try discriminate.
    injection H as <-. simpl.
    split; [reflexivity|]. split; [rewrite length_insert; lia|].
    intros [Hc|[]]; discriminate Hc.
Qed.

Lemma project_cons (k : nat) (e : service_event) (tr : list service_event) :
  project k (e :: tr) =
  project k [e] ++ project (k + match e with Request _ => 1 | _ => 0 end) tr.
Proof.
  destruct e as [e'|rnd|i|i|i]; simpl; rewrite ?Nat.add_0_r, ?Nat.add_1_r;
    reflexivity.
Qed.

Lemma service_run_project (tr : list service_event) (sv sv' : service) :
  service_run sv tr = Some sv' ->
  run (machine sv) (project (length (requests sv)) tr) = Some (machine sv') /\
  ~ In CallStop (project (length (requests sv)) tr).
Proof.
  revert sv. induction tr as [|e tr IH]; intros sv H.
  - simpl in H. injection H as <-. simpl. tauto.
  - simpl in H. destruct (service_step sv e) as [sv1|] eqn:E; [|discriminate].
    destruct (service_step_machine sv sv1 e E) as (Hrun & Hlen & Hno).
    destruct (IH sv1 H) as [Hrun1 Hno1].
    rewrite project_cons, <- Hlen. split.
    + rewrite run_app, Hrun. exact Hrun1.
    + intros Hin. apply in_app_or in Hin as [Hin|Hin]; tauto.
Qed.

Lemma serve_launch (t0 : Z) (tr : list service_event) (sv : service) :
  serve t0 tr = Some sv ->
  launch 50 t0 (project 0 tr) = Some (machine sv) /\
  ~ In CallStop (project 0 tr).
Proof.
  unfold serve, launch, NewFixedService.
  destruct (newWorkCoordinator 50) as [wc|]; [|discriminate].
  intros H. apply service_run_project in H. exact H.
Qed.

Lemma in_flight_bounded (n t0 : Z) (tr : list event) (s : system) :
  launch n t0 tr = Some s -> in_flight s <= n /\ occupancy s <= n.
Proof.
  intros Hl. apply launch_tokens in Hl as (_ & Hfl & _ & Hle).
  pose proof (count_nonneg is_abort tr) as Hd. fold (dropped tr) in Hd.
  lia.
Qed.

Lemma never_stopped (n t0 : Z) (tr : list event) (s : system) :
  launch n t0 tr = Some s -> ~ In CallStop tr -> ctx_done (coord s) = false.
Proof.
  intros H. apply launch_inv in H as (wc0 & Hnew & Hrun).
  apply newWorkCoordinator_inv in Hnew as [_ ->].
  revert tr s Hrun.
  apply (run_ind _ (fun tr s => ~ In CallStop tr -> ctx_done (coord s) = false)).
  - reflexivity.
  - intros tr s e s' _ IH Hstep Hno.
    assert (Hno1 : ~ In CallStop tr) by (intros Hin; apply Hno, in_or_app; tauto).
    assert (He : e <> CallStop)
      by (intros ->; apply Hno, in_or_app; right; left; reflexivity).
    specialize (IH Hno1).
    destruct e as [d|c| | |c data|tid ch]; simpl in Hstep; try congruence.
    + destruct (d <? 0); [discriminate|]. injection Hstep as <-. exact IH.
    + injection Hstep as <-. exact IH.
    + injection Hstep as <-. exact IH.
    + injection Hstep as <-. exact IH.
    + destruct (threads s !! tid) as [t|]; [|discriminate].
      destruct (thread_step ch t (coord s) (clock s) (cancelled s))
        as [[t' wc']|] eqn:Hts; [|discriminate].
      injection Hstep as <-. simpl.
      apply thread_step_ctx_done in Hts as [-> _]. exact IH.
Qed.

Lemma project_Start (k : nat) (tr : list service_event) :
  In (Env CallStart) tr -> In CallStart (project k tr).
Proof.
  revert k. induction tr as [|e tr IH]; intros k; [intros []|].
  intros [->|Hin]; [left; reflexivity|].
  destruct e as [e'|rnd|i|i|i]; simpl; auto.
Qed.

(** ** The service keeps the coordinator's guarantees *)

(** Whatever requests arrive and however the goroutines interleave, the
    fixed service never has more than 50 jobs in flight, its queues stay
    within 5, 3 and 2, and its coordinator is never stopped; so, once
    [Start] has been called, whenever a job waits in a stage queue or is
    carried by a worker, some worker can take a step. *)
Theorem fixed_service_is_bounded_and_live (t0 : Z) (tr : list service_event)
    (sv : service) :
  serve t0 tr = Some sv ->
  in_flight (machine sv) <= 50 /\
  occupancy (machine sv) <= 50 /\
  shape_inv (coord (machine sv)) /\
  ctx_done (coord (machine sv)) = false /\
  (In (Env CallStart) tr ->
   0 < queued (coord (machine sv)) \/
   (exists i t, threads (machine sv) !! i = Some t /\ busy t = true) ->
   exists tid t ch sv',
     threads (machine sv) !! tid = Some t /\ is_worker t = true /\
     service_step sv (Env (Run tid ch)) = Some sv').
Proof.
  intros H. apply serve_launch in H as [Hl Hno].
  pose proof (in_flight_bounded 50 t0 _ _ Hl) as (Hin & Hocc).
  pose proof (never_stopped 50 t0 _ _ Hl Hno) as Hrun.
  split; [exact Hin|]. split; [exact Hocc|].
  split; [eapply shape_invariant; exact Hl|].
  split; [exact Hrun|].
  intros Hstart Hwork.
  destruct (running_workers_can_step 50 t0 _ _ Hl (project_Start 0 tr Hstart)
              Hrun Hwork) as (tid & t & ch & s' & Ht & Hw & Hs).
  exists tid, t, ch, (mk_service s' (requests sv)).
  split; [exact Ht|]. split; [exact Hw|].
  simpl in Hs |- *. rewrite Hs. reflexivity.
Qed.

(** ** HandleRequest *)

Lemma step_submitter (s s' : system) (e : event) (i : nat) (pc : submit_pc) :
  step s e = Some s' -> threads s !! i = Some (Submitter pc) ->
  exists pc', threads s' !! i = Some (Submitter pc') /\
    (pc' = pc \/
     exists ch wc', SubmitJob ch pc (coord s) (clock s) (cancelled s) = Some (pc', wc')).
Proof.
  intros Hstep Ht.
  destruct e as [d|c| | |c data|tid ch]; simpl in Hstep.
  - destruct (d <? 0); [discriminate|]. injection Hstep as <-. eauto.
  - injection Hstep as <-. eauto.
  - injection Hstep as <-. simpl. exists pc.
    split; [apply lookup_app_l_Some; exact Ht | tauto].
  - injection Hstep as <-. eauto.
  - injection Hstep as <-. simpl. exists pc.
    split; [apply lookup_app_l_Some; exact Ht | tauto].
  - destruct (threads s !! tid) as [t1|] eqn:Ht1; [|discriminate].
    destruct (thread_step ch t1 (coord s) (clock s) (cancelled s))
      as [[t' wc']|] eqn:Hts; [|discriminate].
    injection Hstep as <-. simpl.
    destruct (decide (tid = i)) as [->|Hne].
    + rewrite list_lookup_insert_eq by (eapply lookup_lt_Some; eassumption).
      rewrite Ht in Ht1. injection Ht1 as <-.
      apply thread_step_kind in Hts.
      destruct t' as [pc'| | |]; try contradiction.
      exists pc'. split; [reflexivity|]. right. eauto.
    + rewrite list_lookup_insert_ne by assumption. eauto.
Qed.

Lemma SubmitJob_ctx ch pc wc now cs pc' wc' :
  SubmitJob ch pc wc now cs = Some (pc', wc') ->
  (ctx_of_pc pc' = ctx_of_pc pc \/ ctx_of_pc pc' = None) /\
  (forall r, pc <> SReturned r).
Proof.
  intros H.
  destruct pc; destruct ch; simpl in H; try discriminate H; step_cases H;
    injection H as <- <-; simpl; (split; [tauto | discriminate]).
Qed.

Lemma step_cancelled_mono (s s' : system) (e : event) (c : context) :
  step s e = Some s' ->
  ctx_Done (cancelled s) c = true -> ctx_Done (cancelled s') c = true.
Proof.
  intros Hstep Hc.
  destruct e as [d|c'| | |c' data|tid ch]; simpl in Hstep.
  - destruct (d <? 0); [discriminate|]. injection Hstep as <-. exact Hc.
  - injection Hstep as <-. simpl. unfold ctx_Done in *. simpl.
    rewrite Hc. apply orb_true_r.
  - injection Hstep as <-. exact Hc.
  - injection Hstep as <-. exact Hc.
  - injection Hstep as <-. exact Hc.
  - destruct (threads s !! tid) as [t1|]; [|discriminate].
    destruct (thread_step ch t1 (coord s) (clock s) (cancelled s))
      as [[t' wc']|]; [|discriminate].
    injection Hstep as <-. exact Hc.
Qed.

Lemma step_request_ok (s s' : system) (e : event) (i : nat) (rq : request) :
  step s e = Some s' -> request_ok s i rq -> request_ok s' i rq.
Proof.
  intros Hstep ((pc & Ht & Hctx) & Hpc).
  destruct (step_submitter s s' e _ pc Hstep Ht) as (pc' & Ht' & Hrel).
  assert (Hret : forall r, pc = SReturned r -> pc' = pc).
  { intros r ->. destruct Hrel as [->|(ch & wc' & Hs)]; [reflexivity|].
    apply SubmitJob_ctx in Hs as [_ Hs]. exfalso. exact (Hs r eq_refl). }
  split.
  - exists pc'. split; [exact Ht'|].
    destruct Hrel as [->|(ch & wc' & Hs)]; [exact Hctx|].
    apply SubmitJob_ctx in Hs as [[Hs|Hs] _]; [rewrite Hs; exact Hctx | tauto].
  - destruct (rq_pc rq) as [|st body|st body]; [exact I| |].
    + destruct Hpc as (r & Hr & Hresp). rewrite Ht in Hr. injection Hr as ->.
      exists r. rewrite Ht', (Hret r eq_refl). tauto.
    + destruct Hpc as ((r & Hr & Hresp) & Hdone).
      rewrite Ht in Hr. injection Hr as ->. split.
      * exists r. rewrite Ht', (Hret r eq_refl). tauto.
      * eapply step_cancelled_mono; eassumption.
Qed.

Lemma requests_invariant (t0 : Z) (tr : list service_event) (sv : service) :
  serve t0 tr = Some sv -> requests_inv sv.
Proof.
  unfold serve. destruct NewFixedService as [wc|]; [|discriminate].
  revert tr sv. apply service_run_ind.
  - intros i rq H. simpl in H. discriminate.
  - intros tr sv e sv' _ IH Hstep i rq Hrq.
    destruct e as [e'|rnd|k|k|k]; simpl in Hstep.
    + assert (Hm : exists m, step (machine sv) e' = Some m /\
                             sv' = mk_service m (requests sv)).
      { destruct e' as [d|c| | |c data|tid ch]; try discriminate Hstep;
          match type of Hstep with
          | match ?x with _ => _ end = _ =>
              destruct x as [m|] eqn:E; [|discriminate Hstep]
          end; injection Hstep as <-; eauto. }
      destruct Hm as (m & Hm & ->). simpl in *.
      eapply step_request_ok; [exact Hm | apply IH; exact Hrq].
    + destruct (rnd <? 0); [discriminate|]. injection Hstep as <-. simpl in *.
      apply lookup_snoc_inv in Hrq as [Hrq|[-> ->]].
      * eapply (step_request_ok (machine sv) _ (CallSubmit _ _));
          [reflexivity | apply IH; exact Hrq].
      * split; [|exact I]. simpl. eexists. split.
        -- rewrite lookup_app_r by lia. rewrite Nat.sub_diag. reflexivity.
        -- left. reflexivity.
    + destruct (requests sv !! k) as [rk|]; [|discriminate].
      destruct (rq_deadline rk <=? clock (machine sv)); [|discriminate].
      injection Hstep as <-. simpl in *.
      eapply (step_request_ok (machine sv) _ (Cancel k));
        [reflexivity | apply IH; exact Hrq].
    + destruct (requests sv !! k) as [rk|] eqn:Hk; [|discriminate].
      destruct (rq_pc rk) eqn:Hpc; try discriminate.
      destruct (threads (machine sv) !! rq_call rk) as [[[]| | |]|] eqn:Hth;
        try discriminate.
      destruct (response r) as [st body] eqn:Hresp. injection Hstep as <-.
      simpl in *.
      destruct (decide (k = i)) as [->|Hne].
      * rewrite list_lookup_insert_eq in Hrq by (eapply lookup_lt_Some; eassumption).
        injection Hrq as <-.
        destruct (IH i rk Hk) as [Hcall _].
        split; [exact Hcall|]. simpl. eauto.
      * rewrite list_lookup_insert_ne in Hrq by assumption. apply IH. exact Hrq.
    + destruct (requests sv !! k) as [rk|] eqn:Hk; [|discriminate].
      destruct (rq_pc rk) as [|st body|] eqn:Hpc; try discriminate.
      injection Hstep as <-. simpl in *.
      destruct (decide (k = i)) as [->|Hne].
      * rewrite list_lookup_insert_eq in Hrq by (eapply lookup_lt_Some; eassumption).
        injection Hrq as <-.
        pose proof (step_request_ok (machine sv) _ (Cancel i) i rk eq_refl (IH i rk Hk))
          as [Hcall Hresp].
        rewrite Hpc in Hresp.
        split; [exact Hcall|]. simpl. split; [exact Hresp|].
        unfold ctx_Done. simpl. rewrite Nat.eqb_refl. reflexivity.
      * rewrite list_lookup_insert_ne in Hrq by assumption.
        eapply (step_request_ok (machine sv) _ (Cancel k));
          [reflexivity | apply IH; exact Hrq].
Qed.

(** What [HandleRequest] answers is what its call of [SubmitJob] did: a
    request answered 202 "job accepted" has acquired a token, kept it and
    put its job into stage 1; a request answered 503 carries one of the
    three errors of [SubmitJob] in its body, holds no token and has put
    nothing into stage 1. *)
Theorem HandleRequest_answers_for_its_call (t0 : Z) (tr : list service_event)
    (sv : service) (i : nat) (rq : request) (status : Z) (body : string) :
  serve t0 tr = Some sv ->
  requests sv !! i = Some rq ->
  rq_pc rq = HResponded status body \/ rq_pc rq = HReturned status body ->
  (status = 202 /\ body = "job accepted"%string /\
   threads (machine sv) !! rq_call rq = Some (Submitter (SReturned None)) /\
   own (rq_call rq) ch_acquire (project 0 tr) = 1 /\
   own (rq_call rq) ch_release (project 0 tr) = 0 /\
   own (rq_call rq) ch_send (project 0 tr) = 1) \/
  (status = 503 /\
   exists err,
     body = String.append "System at capacity: " err /\
     (err = err_cancelled \/ err = err_capacity \/ err = err_backed_up) /\
     threads (machine sv) !! rq_call rq = Some (Submitter (SReturned (Some err))) /\
     own (rq_call rq) ch_acquire (project 0 tr) =
       own (rq_call rq) ch_release (project 0 tr) /\
     own (rq_call rq) ch_send (project 0 tr) = 0).
Proof.
  intros Hs Hrq Hpc.
  pose proof (requests_invariant t0 tr sv Hs i rq Hrq) as [_ Hok].
  assert (Hr : exists r, threads (machine sv) !! rq_call rq =
                           Some (Submitter (SReturned r)) /\
                         response r = (status, body)).
  { destruct Hpc as [Hpc|Hpc]; rewrite Hpc in Hok; [exact Hok | exact (proj1 Hok)]. }
  destruct Hr as (r & Ht & Hresp).
  apply serve_launch in Hs as [Hl _].
  pose proof (ledger_invariant 50 t0 _ _ Hl (rq_call rq)) as Hled.
  rewrite Ht in Hled. simpl in Hled. unfold ledger_of in Hled.
  destruct r as [err|]; simpl in Hresp; injection Hresp as <- <-.
  - right. split; [reflexivity|]. exists err. split; [reflexivity|].
    unfold gate_error, handoff_error in Hled.
    destruct Hled as [[Hled He]|[Hled He]];
      injection Hled as H1 H2 H3 H4 H5 H6;
      (split; [tauto|]); (split; [exact Ht|]); split; lia.
  - left. injection Hled as H1 H2 H3 H4 H5 H6.
    repeat split; assumption.
Qed.

Lemma HandleRequest_answers_for_its_call_witness :
  exists sv, serve 0 (take 8 accepted_then_returned) = Some sv /\
    own 10 ch_send (project 0 (take 8 accepted_then_returned)) = 1.
Proof.
  destruct (serve 0 (take 8 accepted_then_returned)) as [sv|] eqn:Hs;
    [|vm_compute in Hs; discriminate Hs].
  exists sv. split; [reflexivity|].
  destruct (HandleRequest_answers_for_its_call 0 (take 8 accepted_then_returned)
              sv 0%nat (mk_request 10 (5 * Second) (HReturned 202 "job accepted"))
              202 "job accepted" Hs)
    as [(_ & _ & _ & _ & _ & H)|(Hst & _)].
  - vm_compute in Hs. injection Hs as <-. reflexivity.
  - right. reflexivity.
  - exact H.
  - discriminate Hst.
Defined.

(** ** A returned handler leaves its job cancellable *)

Lemma thread_step_ctx_below (k : nat) ch t wc now cs t' wc' :
  thread_step ch t wc now cs = Some (t', wc') ->
  ctx_below k t ->
  Forall (fun j => (job_ctx j < k)%nat) (buf (stage1Chan wc)) ->
  ctx_below k t' /\
  Forall (fun j => (job_ctx j < k)%nat) (buf (stage1Chan wc')).
Proof.
  intros H Ht Hq.
  destruct t as [pc|pc|pc|pc]; destruct pc; destruct ch; simpl in H;
    try discriminate H; step_cases H;
    injection H as <- <-; simpl in *;
    rewrite ?Erecv in *;
    repeat match goal with
           | H : Forall _ (_ :: _) |- _ => apply Forall_cons_1 in H as [? ?]
           end;
    split; try assumption; try exact I;
    apply Forall_app; split; [assumption | apply Forall_singleton; assumption].
Qed.

Lemma step_ctx_below (k : nat) (s s' : system) (e : event) :
  step s e = Some s' ->
  (forall c data, e = CallSubmit c data -> (c < k)%nat) ->
  Forall (ctx_below k) (threads s) ->
  Forall (fun j => (job_ctx j < k)%nat) (buf (stage1Chan (coord s))) ->
  Forall (ctx_below k) (threads s') /\
  Forall (fun j => (job_ctx j < k)%nat) (buf (stage1Chan (coord s'))).
Proof.
  intros Hstep Hcall Hth Hq.
  destruct e as [d|c| | |c data|tid ch]; simpl in Hstep.
  - destruct (d <? 0); [discriminate|]. injection Hstep as <-. tauto.
  - injection Hstep as <-. tauto.
  - injection Hstep as <-. simpl. split; [|exact Hq].
    apply Forall_app. split; [exact Hth|].
    apply Forall_forall. intros t Ht.
    apply (Start_threads (coord s)) in Ht as [->|[->| ->]]; exact I.
  - injection Hstep as <-. tauto.
  - injection Hstep as <-. simpl. split; [|exact Hq].
    apply Forall_app. split; [exact Hth|].
    apply Forall_singleton. simpl. eapply Hcall. reflexivity.
  - destruct (threads s !! tid) as [t|] eqn:Ht; [|discriminate].
    destruct (thread_step ch t (coord s) (clock s) (cancelled s))
      as [[t' wc']|] eqn:Hts; [|discriminate].
    injection Hstep as <-. simpl.
    pose proof (Forall_lookup_1 _ _ _ _ Hth Ht) as Hc.
    destruct (thread_step_ctx_below k _ _ _ _ _ _ _ Hts Hc Hq) as [Hc' Hq'].
    split; [apply Forall_insert; assumption | exact Hq'].
Qed.

Lemma ctx_below_mono (k k' : nat) (t : thread) :
  (k <= k')%nat -> ctx_below k t -> ctx_below k' t.
Proof.
  intros Hle. destruct t as [pc|[]|?|?]; simpl; try tauto; try lia.
  destruct (ctx_of_pc pc); [lia | tauto].
Qed.

Lemma contexts_invariant (t0 : Z) (tr : list service_event) (sv : service) :
  serve t0 tr = Some sv -> contexts_inv sv.
Proof.
  unfold serve, NewFixedService.
  destruct (newWorkCoordinator 50) as [wc|] eqn:Hnew; [|discriminate].
  apply newWorkCoordinator_inv in Hnew as [_ ->].
  revert tr sv. apply service_run_ind.
  - split; constructor.
  - intros tr sv e sv' _ [IH1 IH2] Hstep. unfold contexts_inv.
    destruct e as [e'|rnd|k|k|k]; simpl in Hstep.
    + assert (Hm : exists m, step (machine sv) e' = Some m /\
                             sv' = mk_service m (requests sv) /\
                             forall c data, e' <> CallSubmit c data).
      { destruct e' as [d|c| | |c data|tid ch]; try discriminate Hstep;
          match type of Hstep with
          | match ?x with _ => _ end = _ =>
              destruct x as [m|] eqn:E; [|discriminate Hstep]
          end; injection Hstep as <-; eexists;
          (split; [reflexivity|]); (split; [reflexivity|]); discriminate. }
      destruct Hm as (m & Hm & -> & Hne). simpl.
      eapply step_ctx_below; try eassumption.
      intros c data ->. exfalso. eapply Hne. reflexivity.
    + destruct (rnd <? 0); [discriminate|]. injection Hstep as <-. simpl.
      rewrite length_app. simpl. split.
      * apply Forall_app. split.
        -- eapply Forall_impl; [exact IH1|]. intros t. apply ctx_below_mono. lia.
        -- apply Forall_singleton. simpl. lia.
      * eapply Forall_impl; [exact IH2|]. simpl. intros. lia.
    + destruct (requests sv !! k) as [rk|]; [|discriminate].
      destruct (rq_deadline rk <=? clock (machine sv)); [|discriminate].
      injection Hstep as <-. simpl. tauto.
    + destruct (requests sv !! k) as [rk|]; [|discriminate].
      destruct (rq_pc rk); try discriminate.
      destruct (threads (machine sv) !! rq_call rk) as [[[]| | |]|]; try discriminate.
      destruct (response r) as [st body]. injection Hstep as <-. simpl.
      rewrite length_insert. tauto.
    + destruct (requests sv !! k) as [rk|]; [|discriminate].
      destruct (rq_pc rk); try discriminate.
      injection Hstep as <-. simpl. rewrite length_insert. tauto.
Qed.

(** Every job a stage-1 worker is about to hand on was submitted for one
    of the requests, under that request's own context.  Once the handler
    of that request has returned -- which it does as soon as it has
    answered, also when the answer was 202 -- its deferred [cancel()] has
    closed the context, and the worker can take the cancellation case of
    its select and abandon the job. *)
Theorem returned_handler_leaves_job_cancellable (t0 : Z)
    (tr : list service_event) (sv : service) (tid : nat) (j : job) :
  serve t0 tr = Some sv ->
  threads (machine sv) !! tid = Some (Stage1 (W1Handoff j)) ->
  exists rq,
    requests sv !! job_ctx j = Some rq /\
    (forall status body,
        rq_pc rq = HReturned status body ->
        ctx_Done (cancelled (machine sv)) (job_ctx j) = true /\
        exists sv',
          service_step sv (Env (Run tid CtxDone)) = Some sv' /\
          threads (machine sv') !! tid = Some (Stage1 (W1Release j))).
Proof.
  intros Hs Ht.
  destruct (contexts_invariant t0 tr sv Hs) as [Hth _].
  pose proof (Forall_lookup_1 _ _ _ _ Hth Ht) as Hlt. simpl in Hlt.
  destruct (lookup_lt_is_Some_2 (requests sv) (job_ctx j) Hlt) as [rq Hrq].
  exists rq. split; [exact Hrq|]. intros st body Hpc.
  pose proof (requests_invariant t0 tr sv Hs _ rq Hrq) as [_ Hok].
  rewrite Hpc in Hok. destruct Hok as [_ Hdone].
  split; [exact Hdone|].
  simpl. rewrite Ht. simpl. rewrite Hdone. eexists. split; [reflexivity|].
  simpl. apply list_lookup_insert_eq. eapply lookup_lt_Some. exact Ht.
Qed.

Lemma returned_handler_leaves_job_cancellable_witness :
  exists sv sv',
    serve 0 accepted_then_returned = Some sv /\
    requests sv !! 0%nat =
      Some (mk_request 10 (5 * Second) (HReturned 202 "job accepted")) /\
    service_step sv (Env (Run 0 CtxDone)) = Some sv' /\
    threads (machine sv') !! 0%nat =
      Some (Stage1 (W1Release (mk_job 7 "request-42" 0 0%nat))).
Proof.
  destruct (serve 0 accepted_then_returned) as [sv|] eqn:Hs;
    [|vm_compute in Hs; discriminate Hs].
  destruct (returned_handler_leaves_job_cancellable 0 accepted_then_returned sv
              0%nat (mk_job 7 "request-42" 0 0%nat) Hs)
    as (rq & Hrq & Hgo).
  - vm_compute in Hs. injection Hs as <-. reflexivity.
  - assert (Hrq0 : requests sv !! 0%nat =
                   Some (mk_request 10 (5 * Second) (HReturned 202 "job accepted")))
      by (vm_compute in Hs; injection Hs as <-; reflexivity).
    pose proof (eq_trans (eq_sym Hrq) Hrq0) as Heq. injection Heq as ->.
    destruct (Hgo 202 "job accepted"%string eq_refl) as (_ & sv' & Hstep & Hth).
    exists sv, sv'. split; [reflexivity|]. split; [exact Hrq0|].
    split; assumption.
Defined.

(** ** HealthCheck *)

Lemma rejected_counts_rejections (n t0 : Z) (tr : list event) (s : system) :
  launch n t0 tr = Some s -> rejectedJobs (coord s) = wrap64 (count is_reject tr).
Proof.
  intros H. apply launch_inv in H as (wc0 & Hnew & Hrun).
  apply newWorkCoordinator_inv in Hnew as [_ ->].
  revert tr s Hrun. apply run_ind.
  - reflexivity.
  - intros tr s e s' _ IH Hstep. rewrite count_snoc.
    destruct e as [d|c| | |c data|tid ch]; simpl in Hstep.
    + destruct (d <? 0); [discriminate|]. injection Hstep as <-. simpl.
      rewrite Z.add_0_r. exact IH.
    + injection Hstep as <-. simpl. rewrite Z.add_0_r. exact IH.
    + injection Hstep as <-. simpl. rewrite Z.add_0_r. exact IH.
    + injection Hstep as <-. simpl. rewrite Z.add_0_r. exact IH.
    + injection Hstep as <-. simpl. rewrite Z.add_0_r. exact IH.
    + destruct (threads s !! tid) as [t|]; [|discriminate].
      destruct (thread_step ch t (coord s) (clock s) (cancelled s))
        as [[t' wc']|] eqn:Hts; [|discriminate].
      injection Hstep as <-. cbn [coord].
      rewrite (thread_step_rejected _ _ _ _ _ _ _ Hts), IH.
      destruct ch; simpl; rewrite ?Z.add_0_r; try reflexivity.
      apply wrap64_wrap64_add.
Qed.

(** [HealthCheck] never panics.  The status it writes compares two
    counts (as [int64]s): the calls of [SubmitJob] turned away at the
    gate, and the jobs completed by stage 3.  It is 503 when the first
    exceeds the second and 200 otherwise; requests that were answered 503
    because stage 1 was backed up, or because they were cancelled at the
    hand-off, are in neither count.  In particular the service reports
    200 as long as no call has been turned away at the gate. *)
Theorem HealthCheck_compares_rejections_with_completions (t0 : Z)
    (tr : list service_event) (sv : service) :
  serve t0 tr = Some sv ->
  let rejections := count is_reject (project 0 tr) in
  let completions := Z.of_nat (length (launch_latencies 50 t0 (project 0 tr))) in
  exists avg,
    HealthCheck (coord (machine sv)) =
      Some (if wrap64 rejections >? wrap64 completions then 503 else 200,
            (activeJobs (coord (machine sv)), wrap64 completions,
             wrap64 rejections, avg)) /\
    (rejections = 0 -> completions < 2 ^ 63 ->
     (wrap64 rejections >? wrap64 completions) = false).
Proof.
  intros Hs rejections completions.
  apply serve_launch in Hs as [Hl _].
  pose proof (rejected_counts_rejections 50 t0 _ _ Hl) as Hr.
  destruct (measured_invariant 50 t0 _ _ Hl) as (Hc & _ & _).
  destruct (GetMetrics_total (coord (machine sv))) as (avg & Hg & _ & _).
  exists avg. split.
  - unfold HealthCheck. rewrite Hg, Hr, Hc. reflexivity.
  - intros H0 Hlt. subst rejections. rewrite H0.
    rewrite (wrap64_id completions) by (unfold in_int64; subst completions; lia).
    change (wrap64 0) with 0. subst completions. lia.
Qed.

Lemma HealthCheck_compares_rejections_with_completions_witness :
  exists sv avg, serve 0 accepted_then_returned = Some sv /\
    HealthCheck (coord (machine sv)) = Some (200, (1, 0, 0, avg)).
Proof.
  destruct (serve 0 accepted_then_returned) as [sv|] eqn:Hs;
    [|vm_compute in Hs; discriminate Hs].
  destruct (HealthCheck_compares_rejections_with_completions 0
              accepted_then_returned sv Hs) as (avg & Hh & _).
  exists sv, avg. split; [reflexivity|].
  rewrite Hh.
  assert (Ha : activeJobs (coord (machine sv)) = 1)
    by (vm_compute in Hs; injection Hs as <-; reflexivity).
  rewrite Ha. vm_compute. reflexivity.
Defined.

Lemma fixed_service_is_bounded_and_live_witness :
  exists sv, serve 0 accepted_then_returned = Some sv /\
             in_flight (machine sv) <= 50.
Proof.
  destruct (serve 0 accepted_then_returned) as [sv|] eqn:Hs;
    [|vm_compute in Hs; discriminate Hs].
  exists sv. split; [reflexivity|].
  exact (proj1 (fixed_service_is_bounded_and_live 0 accepted_then_returned sv Hs)).
Defined.

(** * The broken service *)

Module BrokenFacts.
Import Broken.

Lemma broken_run_app (tr1 tr2 : list event) (s : system) :
  run s (tr1 ++ tr2) =
  match run s tr1 with Some s1 => run s1 tr2 | None => None end.
Proof.
  revert s. induction tr1 as [|e tr1 IH]; intros s; simpl; [reflexivity|].
  destruct (step s e); [apply IH | reflexivity].
Qed.

Lemma broken_run_ind (s0 : system) (P : list event -> system -> Prop) :
  P [] s0 ->
  (forall tr s e s', run s0 tr = Some s -> P tr s -> step s e = Some s' ->
                     P (tr ++ [e]) s') ->
  forall tr s, run s0 tr = Some s -> P tr s.
Proof.
  intros H0 Hstep tr. induction tr as [|e tr IH] using rev_ind; intros s Hrun.
  - simpl in Hrun. injection Hrun as <-. exact H0.
  - rewrite broken_run_app in Hrun.
    destruct (run s0 tr) as [s1|] eqn:E1; [|discriminate].
    simpl in Hrun. destruct (step s1 e) as [s2|] eqn:E2; [|discriminate].
    injection Hrun as <-. eauto.
Qed.

Ltac broken_cases H :=
  repeat match type of H with
         | context [chan_send ?c ?x] =>
             let E := fresh "Esend" in
             unfold chan_send in H;
             destruct (Z.of_nat (length (buf c)) <? cap c) eqn:E
         | context [chan_recv ?c] =>
             let E := fresh "Erecv" in
             unfold chan_recv in H; destruct (buf c) eqn:E
         | context [if ?b then _ else _] =>
             let E := fresh "Eguard" in destruct b eqn:E
         end;
  try discriminate H.

(** ** The goroutine count *)

Lemma thread_step_alive ch t b now t' b' :
  thread_step ch t b now = Some (t', b') ->
  activeGoroutines b' =
    match ch with
    | Track => wrap64 (activeGoroutines b + 1)
    | Untrack => wrap64 (activeGoroutines b + -1)
    | _ => activeGoroutines b
    end /\
  alive t' = alive t + match ch with Track => 1 | Untrack => -1 | _ => 0 end.
Proof.
  intros H.
  destruct t as [pc|pc|pc|pc|pc]; destruct pc; destruct ch; simpl in H;
    try discriminate H; broken_cases H;
    injection H as <- <-; simpl; split; reflexivity.
Qed.

Lemma alive_nonneg (t : thread) : 0 <= alive t.
Proof. destruct t as [pc|pc|pc|pc|pc]; destruct pc; simpl; lia. Qed.

Lemma alive_Start : sumZ alive Start = 0.
Proof. reflexivity. Qed.

Lemma count_invariant (t0 : Z) (tr : list event) (s : system) :
  run (boot t0) tr = Some s ->
  activeGoroutines (svc s) = wrap64 (sumZ alive (threads s)).
Proof.
  revert tr s. apply broken_run_ind.
  - reflexivity.
  - intros tr s e s' _ IH Hstep.
    destruct e as [d| |id|tid ch]; simpl in Hstep.
    + destruct (d <? 0); [discriminate|]. injection Hstep as <-. exact IH.
    + injection Hstep as <-. simpl. rewrite sumZ_app, alive_Start, Z.add_0_r.
      exact IH.
    + destruct (id <? 0); [discriminate|]. injection Hstep as <-. simpl.
      rewrite sumZ_app. simpl. rewrite Z.add_0_r. exact IH.
    + destruct (threads s !! tid) as [t|] eqn:Ht; [|discriminate].
      destruct (thread_step ch t (svc s) (clock s)) as [[t' b']|] eqn:Hts;
        [|discriminate].
      injection Hstep as <-. simpl.
      destruct (thread_step_alive _ _ _ _ _ _ Hts) as [Hb Ha].
      rewrite (sumZ_insert alive _ _ t t' Ht), Hb, Ha, IH.
      destruct ch; rewrite ?wrap64_wrap64_add; f_equal; lia.
Qed.

(** The count kept by [trackGoroutine] and shown by [HealthCheck] is the
    number of request goroutines that have started and not yet finished
    (as an [int64]); it is never negative. *)
Theorem goroutine_count_is_exact (t0 : Z) (tr : list event) (s : system) :
  run (boot t0) tr = Some s ->
  getGoroutineCount (svc s) = wrap64 (sumZ alive (threads s)) /\
  0 <= sumZ alive (threads s) /\
  (sumZ alive (threads s) < 2 ^ 63 ->
   HealthCheck (svc s) =
     (200, (sumZ alive (threads s), chan_len (stage1Chan (svc s)),
            chan_len (stage2Chan (svc s)), chan_len (stage3Chan (svc s))))).
Proof.
  intros Hrun. pose proof (count_invariant t0 tr s Hrun) as Hc.
  pose proof (sumZ_nonneg alive (threads s) alive_nonneg) as H0.
  split; [exact Hc|]. split; [exact H0|].
  intros Hlt. unfold HealthCheck, getGoroutineCount. rewrite Hc.
  rewrite wrap64_id by (unfold in_int64; lia). reflexivity.
Qed.

Lemma goroutine_count_is_exact_witness :
  exists s, run (boot 0) (flood 0 3) = Some s /\
            getGoroutineCount (svc s) = wrap64 (sumZ alive (threads s)) /\
            getGoroutineCount (svc s) = 3.
Proof.
  eexists. split; [vm_compute; reflexivity|].
  match goal with
  | |- getGoroutineCount (svc ?s) = _ /\ _ =>
      split; [exact (proj1 (goroutine_count_is_exact 0 (flood 0 3) s
                              ltac:(vm_compute; reflexivity)))
             | reflexivity]
  end.
Defined.

(** ** No admission control *)

Lemma flood_round (s : system) :
  exists s',
    run s [Request 0; Run (length (threads s) + 1) Track;
           Run (length (threads s)) Respond] = Some s' /\
    length (threads s') = (length (threads s) + 2)%nat /\
    sumZ alive (threads s') = sumZ alive (threads s) + 1 /\
    sumZ answered (threads s') = sumZ answered (threads s) + 1 /\
    stage1Chan (svc s') = stage1Chan (svc s).
Proof.
  set (j := new_job 0 (clock s)).
  set (s1 := mk_system (svc s) (clock s)
               (threads s ++ [Handler (HSpawned 0); Sender (GTrack j)])).
  set (s2 := mk_system (trackGoroutine 1 (svc s)) (clock s)
               (threads s ++ [Handler (HSpawned 0);
                              Sender (GSelect j (clock s + sendTimeout))])).
  set (s3 := mk_system (trackGoroutine 1 (svc s)) (clock s)
               (threads s ++
                [Handler (HAnswered StatusAccepted 0
                            (getGoroutineCount (trackGoroutine 1 (svc s))));
                 Sender (GSelect j (clock s + sendTimeout))])).
  assert (H1 : step s (Request 0) = Some s1) by reflexivity.
  assert (H2 : step s1 (Run (length (threads s) + 1) Track) = Some s2).
  { unfold step, s1. cbn [threads svc clock].
    rewrite lookup_app_r by lia.
    replace (length (threads s) + 1 - length (threads s))%nat with 1%nat by lia.
    cbn [lookup list_lookup thread_step].
    rewrite insert_app_r_alt by lia.
    replace (length (threads s) + 1 - length (threads s))%nat with 1%nat by lia.
    reflexivity. }
  assert (H3 : step s2 (Run (length (threads s)) Respond) = Some s3).
  { unfold step, s2. cbn [threads svc clock].
    rewrite lookup_app_r by lia. rewrite Nat.sub_diag.
    cbn [lookup list_lookup thread_step].
    rewrite insert_app_r_alt by lia. rewrite Nat.sub_diag.
    reflexivity. }
  exists s3. split.
  - cbn [run]. rewrite H1, H2, H3. reflexivity.
  - unfold s3. cbn [threads svc]. rewrite length_app, !sumZ_app. simpl.
    repeat split; lia.
Qed.

Lemma flood_runs (k : nat) (s : system) :
  exists s',
    run s (flood (length (threads s)) k) = Some s' /\
    sumZ alive (threads s') = sumZ alive (threads s) + Z.of_nat k /\
    sumZ answered (threads s') = sumZ answered (threads s) + Z.of_nat k /\
    stage1Chan (svc s') = stage1Chan (svc s).
Proof.
  revert s. induction k as [|k IH]; intros s.
  - exists s. simpl. repeat split; lia.
  - destruct (flood_round s) as (s1 & Hr & Hlen & Ha & Hn & Hq).
    destruct (IH s1) as (s2 & Hr2 & Ha2 & Hn2 & Hq2).
    exists s2. split.
    + change (flood (length (threads s)) (S k))
        with ([Request 0; Run (length (threads s) + 1) Track;
               Run (length (threads s)) Respond] ++
              flood (length (threads s) + 2) k).
      rewrite broken_run_app, Hr, <- Hlen. exact Hr2.
    + rewrite Ha2, Hn2, Hq2, Ha, Hn, Hq. repeat split; lia.
Qed.

(** [HandleRequest] turns nothing away, and nothing bounds the goroutines
    it spawns: for every [k] there is an execution in which [k] requests
    have all been answered 202 while their [k] goroutines are alive and
    none of them has yet delivered its job.  (The coordinator of the fixed
    service never has more than its maximum in flight.) *)
Theorem goroutines_grow_without_bound (t0 : Z) (k : nat) :
  exists tr s,
    run (boot t0) tr = Some s /\
    sumZ answered (threads s) = Z.of_nat k /\
    sumZ alive (threads s) = Z.of_nat k /\
    getGoroutineCount (svc s) = wrap64 (Z.of_nat k) /\
    chan_len (stage1Chan (svc s)) = 0.
Proof.
  destruct (flood_runs k (boot t0)) as (s & Hr & Ha & Hn & Hq).
  exists (flood 0 k), s. split; [exact Hr|].
  simpl in Ha, Hn. split; [lia|]. split; [lia|]. split.
  - unfold getGoroutineCount. rewrite (count_invariant t0 _ s Hr). f_equal. lia.
  - rewrite Hq. reflexivity.
Qed.

(** ** The age measured by stage 3 *)











(** ** A request goroutine lives for at most its timer *)

Lemma broken_deadlines_invariant (t0 : Z) (tr : list event) (s : system) :
  run (boot t0) tr = Some s -> Forall (deadline_ok (clock s)) (threads s).
Proof.
  revert tr s. apply broken_run_ind.
  - constructor.
  - intros tr s e s' _ IH Hstep.
    destruct e as [d| |id|tid ch]; simpl in Hstep.
    + destruct (d <? 0) eqn:Ed; [discriminate|]. injection Hstep as <-. simpl.
      eapply Forall_impl; [exact IH|].
      intros t Ht. destruct t as [pc|pc|pc|pc|pc]; destruct pc; simpl in *; lia.
    + injection Hstep as <-. simpl. apply Forall_app. split; [exact IH|].
      repeat constructor.
    + destruct (id <? 0); [discriminate|]. injection Hstep as <-. simpl.
      apply Forall_app. split; [exact IH|]. repeat constructor.
    + destruct (threads s !! tid) as [t|] eqn:Ht; [|discriminate].
      destruct (thread_step ch t (svc s) (clock s)) as [[t' b']|] eqn:Hts;
        [|discriminate].
      injection Hstep as <-. simpl.
      apply Forall_insert; [exact IH|].
      destruct t as [pc|pc|pc|pc|pc]; destruct pc; destruct ch; simpl in Hts;
        try discriminate Hts; broken_cases Hts;
        injection Hts as <- <-; simpl; try exact I; lia.
Qed.

(** The goroutine spawned for a request is never stuck for good: blocked
    on a full stage-1 queue it gives up after at most 30 seconds -- and the
    job, answered 202 long before, is then dropped without a trace in the
    pipeline; at every other point it can go on at once. *)
Theorem request_goroutine_gives_up_after_30s (t0 : Z) (tr : list event)
    (s : system) (tid : nat) (pc : sender_pc) :
  run (boot t0) tr = Some s ->
  threads s !! tid = Some (Sender pc) ->
  (forall sent, pc <> GDone sent) ->
  exists d ch s1 s2,
    0 <= d <= match pc with GSelect _ _ => sendTimeout | _ => 0 end /\
    step s (Tick d) = Some s1 /\
    step s1 (Run tid ch) = Some s2 /\
    stage1Chan (svc s2) = stage1Chan (svc s) /\
    (forall j deadline, pc = GSelect j deadline ->
       threads s2 !! tid = Some (Sender (GUntrack false))).
Proof.
  intros Hrun Ht Hpc.
  pose proof (broken_deadlines_invariant t0 tr s Hrun) as Hdl.
  pose proof (Forall_lookup_1 _ _ _ _ Hdl Ht) as Hd. simpl in Hd.
  assert (Hstep : forall d, 0 <= d ->
            step s (Tick d) = Some (mk_system (svc s) (clock s + d) (threads s))).
  { intros d H0. simpl. destruct (d <? 0) eqn:E; [lia | reflexivity]. }
  assert (Hlt : (tid < length (threads s))%nat)
    by (eapply lookup_lt_Some; exact Ht).
  destruct pc as [j|j dl|sent|sent].
  - exists 0, Track. eexists. eexists.
    split; [lia|]. split; [apply Hstep; lia|].
    split; [simpl; rewrite Ht; reflexivity|].
    split; [reflexivity | discriminate].
  - exists (Z.max 0 (dl - clock s)), TimedOut. eexists. eexists.
    split; [unfold sendTimeout, Second in *; lia|].
    split; [apply Hstep; lia|]. split.
    + simpl. rewrite Ht. simpl.
      destruct (dl <=? clock s + Z.max 0 (dl - clock s)) eqn:E; [reflexivity | lia].
    + split; [reflexivity|]. intros j0 dl0 _. simpl.
      apply list_lookup_insert_eq. exact Hlt.
  - exists 0, Untrack. eexists. eexists.
    split; [lia|]. split; [apply Hstep; lia|].
    split; [simpl; rewrite Ht; reflexivity|].
    split; [reflexivity | discriminate].
  - exfalso. exact (Hpc sent eq_refl).
Qed.

Lemma request_goroutine_gives_up_after_30s_witness :
  exists s d ch s1 s2,
    run (boot 0) [Request 7; Run 1 Track] = Some s /\
    0 <= d <= 30 * Second /\
    step s (Tick d) = Some s1 /\ step s1 (Run 1 ch) = Some s2.
Proof.
  destruct (run (boot 0) [Request 7; Run 1 Track]) as [s|] eqn:Hrun;
    [|vm_compute in Hrun; discriminate Hrun].
  destruct (request_goroutine_gives_up_after_30s 0 _ s 1%nat
              (GSelect (new_job 7 0) (30 * Second)) Hrun)
    as (d & ch & s1 & s2 & Hd & H1 & H2 & _).
  - vm_compute in Hrun. injection Hrun as <-. reflexivity.
  - intros sent. discriminate.
  - exists s, d, ch, s1, s2. split; [reflexivity|]. split; [exact Hd|].
    split; assumption.
Defined.

End BrokenFacts.
